(** * Wumpus World: the game-state engine of [Wumpus_world.py]

    A shallow embedding of the engine part of the program: the high score
    store ([load_high_score], [save_high_score]), the world generator
    ([_init_board], [_rand]), the percepts ([adjacent], [percepts]), the
    arrow ([ArrowProjectile], [update_arrow], [fire_arrow]) and the actions
    of [WumpusWorld] ([move], [grab], ...), followed by the properties the
    specification states about them.

    Python integers are [Z]; the tuples [(row, col)] are pairs of [Z];
    Python sets of cells are [gset (Z * Z)]; Python lists are lists; the
    arrow's [frac] and [speed] are IEEE 754 binary64 numbers, as Python's
    [float] is, so they are primitive floats here. *)

From Stdlib Require Import Floats.
From stdpp Require Import gmap strings list sorting.

Open Scope Z_scope.

(* ===================================================================== *)
(** * Definitions *)
(* ===================================================================== *)

(** ** The high score file

    [HIGHSCORE_FILE] is a CSV file with the header [grid_size,score,date].
    What [csv.DictReader] yields for it is a list of rows.  The program
    applies [int] to the first two fields of a row, which raises on text
    that is no integer: such a field is [None] here, a field that reads
    as the integer [z] is [Some z].  The file system holds either no such
    file ([None]) or its rows.  Opening, reading and writing the file
    succeed in this model; the exceptions it keeps are those that depend
    on the file's content. *)

Record csv_row := CsvRow {
  grid_size_field : option Z;
  score_field : option Z;
  date_field : string
}.

Definition csv_file := option (list csv_row).

(** The [for row in reader] loop of [load_high_score]: it returns at the
    first row whose [grid_size] matches, is left by an exception, or runs
    to the end of the file. *)
Inductive scan_result :=
| Returned (sc : Z)
| Excepted
| Exhausted.

Fixpoint load_scan (grid_size : Z) (rows : list csv_row) : scan_result :=
  match rows with
  | [] => Exhausted
  | row :: rest =>
      match grid_size_field row with
      | None => Excepted
      | Some gs =>
          if bool_decide (gs = grid_size) then
            match score_field row with
            | Some sc => Returned sc
            | None => Excepted
            end
          else load_scan grid_size rest
      end
  end.

Definition load_high_score (file : csv_file) (grid_size : Z) : Z :=
  match file with
  | None => 0
  | Some rows =>
      match load_scan grid_size rows with
      | Returned sc => sc
      | Excepted | Exhausted => 0
      end
  end.

(** The reading loop of [save_high_score] fills the dict [scores]; a later
    row of the same grid size overwrites an earlier one, and an exception
    ends the loop with the entries read so far. *)
Fixpoint read_scores (rows : list csv_row) (scores : gmap Z (Z * string))
  : gmap Z (Z * string) :=
  match rows with
  | [] => scores
  | row :: rest =>
      match grid_size_field row, score_field row with
      | Some gs, Some sc => read_scores rest (<[gs := (sc, date_field row)]> scores)
      | _, _ => scores
      end
  end.

Definition key_le (a b : Z * (Z * string)) : Prop := a.1 ≤ b.1.

Global Instance key_le_dec : RelDecision key_le.
Proof. intros a b. unfold key_le. apply _. Defined.

(** [for gs, data in sorted(scores.items()): writer.writerow(...)] *)
Definition write_rows (scores : gmap Z (Z * string)) : list csv_row :=
  (λ e, CsvRow (Some e.1) (Some e.2.1) e.2.2) <$> merge_sort key_le (map_to_list scores).

(** [now] is the text of [datetime.now().strftime(...)] at the call. *)
Definition save_high_score (now : string) (file : csv_file) (grid_size score : Z)
  : csv_file :=
  let scores :=
    match file with
    | None => ∅
    | Some rows => read_scores rows ∅
    end in
  let current_high :=
    match scores !! grid_size with
    | Some data => data.1
    | None => 0
    end in
  if bool_decide (current_high < score) then
    Some (write_rows (<[grid_size := (score, now)]> scores))
  else file.

(** ** The game object

    [game_state] holds one of six string tags. *)
Inductive GameState := MENU | PLAYING | PAUSED | AIM | GAME_OVER | WIN.

Global Instance GameState_eq_dec : EqDecision GameState.
Proof. solve_decision. Defined.

(** [class ArrowProjectile]; [ArrowProjectile.__init__] is [new_arrow]. *)
Record ArrowProjectile := Arrow {
  row : Z;
  col : Z;
  dr : Z;
  dc : Z;
  frac : float;
  speed : float;
  done : bool;
  hit_wumpus : bool
}.

(** [0.18] denotes the binary64 number nearest to it. *)
Definition speed_per_tick : float := 0x1.70a3d70a3d70ap-3%float.

Definition new_arrow (start_row start_col dr dc : Z) : ArrowProjectile :=
  Arrow start_row start_col dr dc 0%float speed_per_tick false false.

(** A popup [[cx, cy - 10, lbl, 255, col]] is drawn from the cell
    [(row, col_idx)] and the points [pts] passed to [_add_score]: its
    pixel position is [grid_to_screen(row, col_idx)], its label and colour
    are functions of [pts].  The engine keeps the cell and the points. *)
Record popup := Popup {
  popup_row : Z;
  popup_col : Z;
  popup_pts : Z
}.

(** The attributes of a [WumpusWorld] object, together with the content
    of the high score file that its methods read and write. *)
Record WumpusWorld := World {
  grid_size : Z;
  num_pits : Z;
  high_score : Z;
  game_state : GameState;
  agent_pos : Z * Z;
  agent_alive : bool;
  has_gold : bool;
  wumpus_alive : bool;
  arrow_used : bool;
  visited : gset (Z * Z);
  scored_cells : gset (Z * Z);
  message : string;
  score : Z;
  popups : list popup;
  aim_dir : option (Z * Z);
  arrow : option ArrowProjectile;
  wumpus : Z * Z;
  gold : Z * Z;
  pits : list (Z * Z);
  highscore_csv : csv_file
}.

(** Assignments to one attribute. *)
Definition set_game_state (v : GameState) (s : WumpusWorld) : WumpusWorld :=
  World (grid_size s) (num_pits s) (high_score s) v (agent_pos s)
    (agent_alive s) (has_gold s) (wumpus_alive s) (arrow_used s) (visited s)
    (scored_cells s) (message s) (score s) (popups s) (aim_dir s) (arrow s)
    (wumpus s) (gold s) (pits s) (highscore_csv s).

Definition set_high_score (v : Z) (s : WumpusWorld) : WumpusWorld :=
  World (grid_size s) (num_pits s) v (game_state s) (agent_pos s)
    (agent_alive s) (has_gold s) (wumpus_alive s) (arrow_used s) (visited s)
    (scored_cells s) (message s) (score s) (popups s) (aim_dir s) (arrow s)
    (wumpus s) (gold s) (pits s) (highscore_csv s).

Definition set_agent_pos (v : Z * Z) (s : WumpusWorld) : WumpusWorld :=
  World (grid_size s) (num_pits s) (high_score s) (game_state s) v
    (agent_alive s) (has_gold s) (wumpus_alive s) (arrow_used s) (visited s)
    (scored_cells s) (message s) (score s) (popups s) (aim_dir s) (arrow s)
    (wumpus s) (gold s) (pits s) (highscore_csv s).

Definition set_agent_alive (v : bool) (s : WumpusWorld) : WumpusWorld :=
  World (grid_size s) (num_pits s) (high_score s) (game_state s) (agent_pos s)
    v (has_gold s) (wumpus_alive s) (arrow_used s) (visited s)
    (scored_cells s) (message s) (score s) (popups s) (aim_dir s) (arrow s)
    (wumpus s) (gold s) (pits s) (highscore_csv s).

Definition set_has_gold (v : bool) (s : WumpusWorld) : WumpusWorld :=
  World (grid_size s) (num_pits s) (high_score s) (game_state s) (agent_pos s)
    (agent_alive s) v (wumpus_alive s) (arrow_used s) (visited s)
    (scored_cells s) (message s) (score s) (popups s) (aim_dir s) (arrow s)
    (wumpus s) (gold s) (pits s) (highscore_csv s).

Definition set_wumpus_alive (v : bool) (s : WumpusWorld) : WumpusWorld :=
  World (grid_size s) (num_pits s) (high_score s) (game_state s) (agent_pos s)
    (agent_alive s) (has_gold s) v (arrow_used s) (visited s) (scored_cells s)
    (message s) (score s) (popups s) (aim_dir s) (arrow s) (wumpus s) (gold s)
    (pits s) (highscore_csv s).

Definition set_arrow_used (v : bool) (s : WumpusWorld) : WumpusWorld :=
  World (grid_size s) (num_pits s) (high_score s) (game_state s) (agent_pos s)
    (agent_alive s) (has_gold s) (wumpus_alive s) v (visited s)
    (scored_cells s) (message s) (score s) (popups s) (aim_dir s) (arrow s)
    (wumpus s) (gold s) (pits s) (highscore_csv s).

Definition set_visited (v : gset (Z * Z)) (s : WumpusWorld) : WumpusWorld :=
  World (grid_size s) (num_pits s) (high_score s) (game_state s) (agent_pos s)
    (agent_alive s) (has_gold s) (wumpus_alive s) (arrow_used s) v
    (scored_cells s) (message s) (score s) (popups s) (aim_dir s) (arrow s)
    (wumpus s) (gold s) (pits s) (highscore_csv s).

Definition set_scored_cells (v : gset (Z * Z)) (s : WumpusWorld) : WumpusWorld :=
  World (grid_size s) (num_pits s) (high_score s) (game_state s) (agent_pos s)
    (agent_alive s) (has_gold s) (wumpus_alive s) (arrow_used s) (visited s) v
    (message s) (score s) (popups s) (aim_dir s) (arrow s) (wumpus s) (gold s)
    (pits s) (highscore_csv s).

Definition set_message (v : string) (s : WumpusWorld) : WumpusWorld :=
  World (grid_size s) (num_pits s) (high_score s) (game_state s) (agent_pos s)
    (agent_alive s) (has_gold s) (wumpus_alive s) (arrow_used s) (visited s)
    (scored_cells s) v (score s) (popups s) (aim_dir s) (arrow s) (wumpus s)
    (gold s) (pits s) (highscore_csv s).

Definition set_score (v : Z) (s : WumpusWorld) : WumpusWorld :=
  World (grid_size s) (num_pits s) (high_score s) (game_state s) (agent_pos s)
    (agent_alive s) (has_gold s) (wumpus_alive s) (arrow_used s) (visited s)
    (scored_cells s) (message s) v (popups s) (aim_dir s) (arrow s) (wumpus s)
    (gold s) (pits s) (highscore_csv s).

Definition set_popups (v : list popup) (s : WumpusWorld) : WumpusWorld :=
  World (grid_size s) (num_pits s) (high_score s) (game_state s) (agent_pos s)
    (agent_alive s) (has_gold s) (wumpus_alive s) (arrow_used s) (visited s)
    (scored_cells s) (message s) (score s) v (aim_dir s) (arrow s) (wumpus s)
    (gold s) (pits s) (highscore_csv s).

Definition set_aim_dir (v : option (Z * Z)) (s : WumpusWorld) : WumpusWorld :=
  World (grid_size s) (num_pits s) (high_score s) (game_state s) (agent_pos s)
    (agent_alive s) (has_gold s) (wumpus_alive s) (arrow_used s) (visited s)
    (scored_cells s) (message s) (score s) (popups s) v (arrow s) (wumpus s)
    (gold s) (pits s) (highscore_csv s).

Definition set_arrow (v : option ArrowProjectile) (s : WumpusWorld) : WumpusWorld :=
  World (grid_size s) (num_pits s) (high_score s) (game_state s) (agent_pos s)
    (agent_alive s) (has_gold s) (wumpus_alive s) (arrow_used s) (visited s)
    (scored_cells s) (message s) (score s) (popups s) (aim_dir s) v (wumpus s)
    (gold s) (pits s) (highscore_csv s).

Definition set_highscore_csv (v : csv_file) (s : WumpusWorld) : WumpusWorld :=
  World (grid_size s) (num_pits s) (high_score s) (game_state s) (agent_pos s)
    (agent_alive s) (has_gold s) (wumpus_alive s) (arrow_used s) (visited s)
    (scored_cells s) (message s) (score s) (popups s) (aim_dir s) (arrow s)
    (wumpus s) (gold s) (pits s) v.

(** ** Percepts *)

Definition adjacent (s : WumpusWorld) (pos : Z * Z) : list (Z * Z) :=
  let '(x, y) := pos in
  let nb := [] in
  let nb := if bool_decide (0 < x) then nb ++ [(x - 1, y)] else nb in
  let nb := if bool_decide (x < grid_size s - 1) then nb ++ [(x + 1, y)] else nb in
  let nb := if bool_decide (0 < y) then nb ++ [(x, y - 1)] else nb in
  let nb := if bool_decide (y < grid_size s - 1) then nb ++ [(x, y + 1)] else nb in
  nb.

(** The three strings that [percepts] appends. *)
Inductive percept := Breeze | Stench | Glitter.

Global Instance percept_eq_dec : EqDecision percept.
Proof. solve_decision. Defined.

Definition percepts (s : WumpusWorld) : list percept :=
  let p := [] in
  let p :=
    if existsb (λ pit, bool_decide (pit ∈ adjacent s (agent_pos s))) (pits s)
    then p ++ [Breeze] else p in
  let p :=
    if wumpus_alive s && bool_decide (wumpus s ∈ adjacent s (agent_pos s))
    then p ++ [Stench] else p in
  let p :=
    if bool_decide (agent_pos s = gold s) && negb (has_gold s)
    then p ++ [Glitter] else p in
  p.

(** ** Scoring *)

Definition _add_score (now : string) (pts row col_idx : Z) (s : WumpusWorld)
  : WumpusWorld :=
  let s := set_score (score s + pts) s in
  let s :=
    if bool_decide (high_score s < score s) then
      let s := set_high_score (score s) s in
      set_highscore_csv
        (save_high_score now (highscore_csv s) (grid_size s) (score s)) s
    else s in
  set_popups (popups s ++ [Popup row col_idx pts]) s.

(** ** The arrow *)

Definition update_arrow (now : string) (s : WumpusWorld) : WumpusWorld :=
  match arrow s with
  | None => s
  | Some a =>
      if done a then s else
      let frac' := (frac a + speed a)%float in
      if (1 <=? frac')%float then
        (* Advance to next cell *)
        let r := row a + dr a in
        let c := col a + dc a in
        let a := Arrow r c (dr a) (dc a) 0%float (speed a) (done a) (hit_wumpus a) in
        (* Check hit *)
        if wumpus_alive s && bool_decide ((r, c) = wumpus s) then
          let a := Arrow (row a) (col a) (dr a) (dc a) (frac a) (speed a) true true in
          let s := set_arrow (Some a) s in
          let s := set_wumpus_alive false s in
          let s := _add_score now 300 r c s in
          set_message "Wumpus slain! +300 (-50 arrow)" s
        (* Check out of bounds *)
        else if negb (bool_decide (0 ≤ r < grid_size s ∧ 0 ≤ c < grid_size s)) then
          let a := Arrow (row a) (col a) (dr a) (dc a) (frac a) (speed a) true (hit_wumpus a) in
          let s := set_arrow (Some a) s in
          set_message "Arrow missed! (-50 charged on fire)" s
        else set_arrow (Some a) s
      else
        set_arrow
          (Some (Arrow (row a) (col a) (dr a) (dc a) frac' (speed a) (done a) (hit_wumpus a))) s
  end.

(** ** Actions *)

Definition enter_aim_mode (s : WumpusWorld) : WumpusWorld :=
  if arrow_used s || negb (bool_decide (game_state s = PLAYING)) then s else
  let s := set_game_state AIM s in
  let s := set_aim_dir None s in
  set_message "AIM: Press an arrow key to shoot!" s.

Definition fire_arrow (now : string) (dr dc : Z) (s : WumpusWorld) : WumpusWorld :=
  if arrow_used s then s else
  let s := set_arrow_used true s in
  let s := set_game_state PLAYING s in
  let '(r, c) := agent_pos s in
  let s := _add_score now (-50) r c s in
  set_arrow (Some (new_arrow r c dr dc)) s.

Definition cancel_aim (s : WumpusWorld) : WumpusWorld :=
  let s := set_game_state PLAYING s in
  set_message "Aim cancelled." s.

Definition _check_danger (s : WumpusWorld) : WumpusWorld :=
  if bool_decide (agent_pos s ∈ pits s) then
    let s := set_agent_alive false s in
    let s := set_game_state GAME_OVER s in
    set_message "Fell into a pit!" s
  else if bool_decide (agent_pos s = wumpus s) && wumpus_alive s then
    let s := set_agent_alive false s in
    let s := set_game_state GAME_OVER s in
    set_message "Eaten by the Wumpus!" s
  else s.

(** The bonus part of [move]: [safe = ...] and the [if safe and ...]
    statement. *)
Definition score_visit (now : string) (nx ny : Z) (s : WumpusWorld) : WumpusWorld :=
  let safe :=
    bool_decide ((nx, ny) ∉ pits s)
    && negb (bool_decide ((nx, ny) = wumpus s) && wumpus_alive s) in
  if safe && bool_decide ((nx, ny) ∉ scored_cells s) then
    let s := set_scored_cells (scored_cells s ∪ {[(nx, ny)]}) s in
    _add_score now 10 nx ny s
  else s.

(** The last statement of [move]: auto-win when carrying gold and stepping
    back to start. *)
Definition auto_win (s : WumpusWorld) : WumpusWorld :=
  if has_gold s && bool_decide (agent_pos s = (0, 0))
     && bool_decide (game_state s = PLAYING) then
    let s := set_game_state WIN s in
    set_message "Escaped with the gold!" s
  else s.

Definition move (now : string) (dx dy : Z) (s : WumpusWorld) : WumpusWorld :=
  if negb (bool_decide (game_state s = PLAYING)) then s else
  let '(x, y) := agent_pos s in
  let nx := x + dx in
  let ny := y + dy in
  if bool_decide (0 ≤ nx < grid_size s ∧ 0 ≤ ny < grid_size s) then
    let s := set_agent_pos (nx, ny) s in
    let s := set_visited (visited s ∪ {[(nx, ny)]}) s in
    let s := score_visit now nx ny s in
    let s := _check_danger s in
    auto_win s
  else s.

Definition grab (now : string) (s : WumpusWorld) : WumpusWorld :=
  if negb (bool_decide (game_state s = PLAYING)) then s else
  let '(r, c) := agent_pos s in
  let s :=
    if bool_decide ((r, c) = gold s) && negb (has_gold s) then
      let s := set_has_gold true s in
      let s := _add_score now 1000 r c s in
      set_message "Gold grabbed! +1000 pts! Head to start!" s
    else s in
  if has_gold s && bool_decide ((r, c) = (0, 0)) then
    let s := set_game_state WIN s in
    set_message "Escaped with the gold!" s
  else s.

(** ** World generation

    [random.randint] draws from the generator of the [random] module.  The
    generator is a stream [rnd] of integers and the number [k] of values
    drawn from it so far; [randint lo hi] maps the next value into
    [lo..hi], and raises [ValueError] on an empty range.

    [_rand] loops until it draws a cell outside [exclude].  A computation
    here is given a number of [rounds] for every such loop and ends in one
    of three ways. *)
Inductive outcome (A : Type) :=
| Ret (a : A) (k : nat)   (* returned [a], with [k] values drawn in all *)
| Raise                   (* left by an exception *)
| Spin.                   (* a loop is still running after [rounds] rounds *)

Arguments Ret {A} a k.
Arguments Raise {A}.
Arguments Spin {A}.

Definition Gen (A : Type) : Type := nat → outcome A.

Global Instance Gen_ret : MRet Gen := λ A a k, Ret a k.

Global Instance Gen_bind : MBind Gen := λ A B f m k,
  match m k with
  | Ret a k' => f a k'
  | Raise => Raise
  | Spin => Spin
  end.

(** The attributes as [_init_board] leaves them, for the placement
    [(wumpus, gold, pits)]; it keeps [grid_size], [num_pits], [high_score],
    [game_state] and the file. *)
Definition board (s : WumpusWorld) (wumpus gold : Z * Z) (pits : list (Z * Z))
  : WumpusWorld :=
  World (grid_size s) (num_pits s) (high_score s) (game_state s)
    (0, 0) true false true false {[(0, 0)]} {[(0, 0)]} "" 0 [] None None
    wumpus gold pits (highscore_csv s).

Section Generation.
Variable rnd : nat → Z.

Definition randint (lo hi : Z) : Gen Z := λ k,
  if bool_decide (hi < lo) then Raise
  else Ret (lo + (rnd k `mod` (hi - lo + 1))) (S k).

Fixpoint _rand (rounds : nat) (grid_size : Z) (exclude : list (Z * Z))
  : Gen (Z * Z) :=
  match rounds with
  | O => λ _, Spin
  | S rounds =>
      r ← randint 0 (grid_size - 1);
      c ← randint 0 (grid_size - 1);
      if bool_decide ((r, c) ∉ exclude) then mret (r, c)
      else _rand rounds grid_size exclude
  end.

(** [for _ in range(self.num_pits)], with [n] passes left. *)
Fixpoint place_pits (rounds : nat) (grid_size : Z) (wumpus gold : Z * Z)
  (n : nat) (pits : list (Z * Z)) : Gen (list (Z * Z)) :=
  match n with
  | O => mret pits
  | S n =>
      p ← _rand rounds grid_size ([(0, 0); wumpus; gold] ++ pits);
      place_pits rounds grid_size wumpus gold n (pits ++ [p])
  end.

(** [_init_board] resets the attributes, then draws the placement; the
    draws read [grid_size] and [num_pits] only, so the reset attributes are
    written here with the placement, by [board]. *)
Definition _init_board (rounds : nat) (s : WumpusWorld) : Gen WumpusWorld :=
  wumpus ← _rand rounds (grid_size s) [(0, 0)];
  gold ← _rand rounds (grid_size s) [(0, 0); wumpus];
  pits ← place_pits rounds (grid_size s) wumpus gold (Z.to_nat (num_pits s)) [];
  mret (board s wumpus gold pits).

(** [WumpusWorld.__init__].  The attributes that [_init_board] assigns do
    not exist before its first call; they are given here the values that
    [board] overwrites. *)
Definition WumpusWorld_init (rounds : nat) (file : csv_file) (grid_size : Z)
  : Gen WumpusWorld :=
  _init_board rounds
    (World grid_size grid_size (load_high_score file grid_size) MENU
       (0, 0) true false true false ∅ ∅ "" 0 [] None None (0, 0) (0, 0) [] file).

Definition restart (rounds : nat) (s : WumpusWorld) : Gen WumpusWorld :=
  let hs := high_score s in
  s ← _init_board rounds s;
  let s := set_high_score hs s in
  mret (set_game_state PLAYING s).

(** The START GAME button: [game._init_board()], then
    [game.game_state = "PLAYING"]. *)
Definition start_game (rounds : nat) (s : WumpusWorld) : Gen WumpusWorld :=
  s ← _init_board rounds s;
  mret (set_game_state PLAYING s).
End Generation.

(** ** The main loop's calls into the engine

    What one pass of the main loop does to a game in progress: the frame's
    [game.update_arrow()], or what a key or button triggers.  [Pause] and
    [Resume] are the assignments [game.game_state = "PAUSED"] and
    [game.game_state = "PLAYING"]. *)
Inductive action :=
| Move (dx dy : Z)
| EnterAim
| Grab
| Fire (dr dc : Z)
| CancelAim
| Pause
| Resume
| Tick.

Definition step (now : string) (a : action) (s : WumpusWorld) : WumpusWorld :=
  match a with
  | Move dx dy => move now dx dy s
  | EnterAim => enter_aim_mode s
  | Grab => grab now s
  | Fire dr dc => fire_arrow now dr dc s
  | CancelAim => cancel_aim s
  | Pause => set_game_state PAUSED s
  | Resume => set_game_state PLAYING s
  | Tick => update_arrow now s
  end.

(** A game instance lives from one [_init_board] to the next; in between
    the engine sees a sequence of actions, each at its own clock reading. *)
Fixpoint run (tr : list (string * action)) (s : WumpusWorld) : WumpusWorld :=
  match tr with
  | [] => s
  | (now, a) :: tr => run tr (step now a s)
  end.

(** The [KEYDOWN] branch of the main loop: which call a key triggers in
    which game state.  [KRestart] is [game.restart()], [KQuit] is
    [running = False]. *)
Inductive key :=
| K_UP | K_DOWN | K_LEFT | K_RIGHT | K_ESCAPE | K_SPACE | K_g | K_r | K_p | K_other.

Inductive key_call :=
| KDo (a : action)
| KRestart
| KQuit.

Definition on_keydown (st : GameState) (k : key) : option key_call :=
  match st with
  | AIM =>
      match k with
      | K_UP => Some (KDo (Fire (-1) 0))
      | K_DOWN => Some (KDo (Fire 1 0))
      | K_LEFT => Some (KDo (Fire 0 (-1)))
      | K_RIGHT => Some (KDo (Fire 0 1))
      | K_ESCAPE => Some (KDo CancelAim)
      | K_SPACE => Some (KDo CancelAim)
      | _ => None
      end
  | PLAYING =>
      match k with
      | K_UP => Some (KDo (Move (-1) 0))
      | K_DOWN => Some (KDo (Move 1 0))
      | K_LEFT => Some (KDo (Move 0 (-1)))
      | K_RIGHT => Some (KDo (Move 0 1))
      | K_SPACE => Some (KDo EnterAim)
      | K_g => Some (KDo Grab)
      | K_r => Some KRestart
      | K_p => Some (KDo Pause)
      | K_ESCAPE => Some KQuit
      | K_other => None
      end
  | PAUSED =>
      match k with
      | K_p => Some (KDo Resume)
      | K_r => Some KRestart
      | K_ESCAPE => Some KQuit
      | _ => None
      end
  | MENU | GAME_OVER | WIN => None
  end.

(** ** Predicates and observations used in the statements *)

(** The data model of the high score file: every row reads as integers,
    and there is one row per grid size.  This is what [save_high_score]
    writes. *)
Definition row_ok (r : csv_row) : Prop :=
  is_Some (grid_size_field r) ∧ is_Some (score_field r).

Definition rows_ok (rows : list csv_row) : Prop :=
  Forall row_ok rows ∧ NoDup (omap grid_size_field rows).

Definition file_ok (file : csv_file) : Prop :=
  match file with
  | None => True
  | Some rows => rows_ok rows
  end.

Definition rows_of (file : csv_file) : list csv_row := default [] file.

(** The score and date of the first row for grid size [k]. *)
Fixpoint record_for (k : Z) (rows : list csv_row) : option (Z * string) :=
  match rows with
  | [] => None
  | r :: rest =>
      if bool_decide (grid_size_field r = Some k)
      then (λ sc, (sc, date_field r)) <$> score_field r
      else record_for k rest
  end.

(** A sequence of calls [save_high_score(grid_size, score)], each with its
    clock reading. *)
Fixpoint save_all (saves : list (string * Z * Z)) (file : csv_file) : csv_file :=
  match saves with
  | [] => file
  | (now, gs, sc) :: saves => save_all saves (save_high_score now file gs sc)
  end.

(** The cell a move by [(dx, dy)] aims at, the cells of the grid, and the
    cells that kill the agent: a pit, or the cell of the live monster. *)
Definition target (s : WumpusWorld) (dx dy : Z) : Z * Z :=
  ((agent_pos s).1 + dx, (agent_pos s).2 + dy).

Definition in_grid (s : WumpusWorld) (c : Z * Z) : Prop :=
  0 ≤ c.1 < grid_size s ∧ 0 ≤ c.2 < grid_size s.

Definition deadly (s : WumpusWorld) (c : Z * Z) : Prop :=
  c ∈ pits s ∨ (wumpus_alive s = true ∧ c = wumpus s).

(** What no action of a game instance undoes: the placement is fixed, a
    scored or visited cell stays so, a used arrow stays used, a dead
    monster stays dead, gold once carried stays carried. *)
Definition persists (s s' : WumpusWorld) : Prop :=
  grid_size s' = grid_size s
  ∧ num_pits s' = num_pits s
  ∧ wumpus s' = wumpus s
  ∧ gold s' = gold s
  ∧ pits s' = pits s
  ∧ scored_cells s ⊆ scored_cells s'
  ∧ visited s ⊆ visited s'
  ∧ (arrow_used s = true → arrow_used s' = true)
  ∧ (wumpus_alive s = false → wumpus_alive s' = false)
  ∧ (has_gold s = true → has_gold s' = true).

(** The arrow's progress after one more tick reaches 1.0, and the cell it
    then moves to. *)
Definition crosses (a : ArrowProjectile) : bool := (1 <=? frac a + speed a)%float.

Definition next_cell (a : ArrowProjectile) : Z * Z := (row a + dr a, col a + dc a).

(** The number of steps of a run at which the score drops by 50. *)
Fixpoint fire_charges (tr : list (string * action)) (s : WumpusWorld) : nat :=
  match tr with
  | [] => 0
  | (now, a) :: tr =>
      let charged := bool_decide (score (step now a s) = score s - 50) in
      ((if charged then 1 else 0) + fire_charges tr (step now a s))%nat
  end.

(** Two cells next to each other in a row or in a column. *)
Definition orth_adjacent (a b : Z * Z) : Prop :=
  Z.abs (a.1 - b.1) + Z.abs (a.2 - b.2) = 1.

(** The cells of the grid, and the cell that one round of [_rand] draws
    when [k] values are drawn already. *)
Definition grid_cells (grid_size : Z) : list (Z * Z) :=
  cprod (seqZ 0 grid_size) (seqZ 0 grid_size).

Definition drawn (rnd : nat → Z) (grid_size : Z) (k : nat) : Z * Z :=
  (rnd k `mod` grid_size, rnd (S k) `mod` grid_size).

(** A fair generator: from [k] values on, whatever number of rounds have
    passed, every cell of the grid is drawn in some later round. *)
Definition fair (rnd : nat → Z) (grid_size : Z) (k : nat) : Prop :=
  ∀ (i : nat) (c : Z * Z), c ∈ grid_cells grid_size →
    ∃ j : nat, (i ≤ j)%nat ∧ drawn rnd grid_size (k + 2 * j) = c.

(** ** Sample inputs *)

Definition sample_file : csv_file :=
  Some [CsvRow (Some 4) (Some 120) "2024-01-01 10:00:00";
        CsvRow (Some 6) (Some 500) "2024-01-02 11:30:00"].

(** The attributes that exist when the constructor calls [_init_board]
    for a game of the given size, with no high score file. *)
Definition blank (grid_size : Z) : WumpusWorld :=
  World grid_size grid_size 0 MENU (0, 0) true false true false ∅ ∅ "" 0 [] None None
    (0, 0) (0, 0) [] None.

(** A 4 x 4 game in progress, as [_init_board] and the START button leave
    it: monster at (2,2), gold at (1,3), four pits. *)
Definition sample_world : WumpusWorld :=
  set_game_state PLAYING
    (board (blank 4) (2, 2) (1, 3) [(0, 3); (3, 0); (1, 1); (3, 3)]).

(** The sample game with the gold in hand. *)
Definition sample_world_with_gold : WumpusWorld := set_has_gold true sample_world.

(** The sample game after two steps down, to (2,0), and a shot to the
    right, towards the monster at (2,2); and the same 11 frames later, the
    arrow about to leave (2,1). *)
Definition sample_shot : WumpusWorld :=
  run [("t1", Move 1 0); ("t2", Move 1 0); ("t3", EnterAim); ("t4", Fire 0 1)]
    sample_world.

Definition sample_shot_near : WumpusWorld := run (replicate 11 ("t5", Tick)) sample_shot.

(** A stream of random integers, and the 4 x 4 board that [_init_board]
    places from it. *)
Definition sample_rnd (k : nat) : Z := Z.of_nat (k * k + k `div` 3)%nat.

Definition sample_placed : WumpusWorld :=
  board (blank 4) (0, 1) (0, 2) [(1, 2); (2, 3); (2, 0); (3, 0)].

(** A generator that walks through the rows of a grid of size 3. *)
Definition sweep_rnd (k : nat) : Z :=
  if Nat.even k then Z.of_nat (k `div` 2) `div` 3 else Z.of_nat (k `div` 2).

(** ** More of the program: the score table of the menu

    [get_all_high_scores]: the dict of the best score per grid size.  In
    [scores[int(row['grid_size'])] = int(row['score'])] the score is read
    first; an exception ends the loop with the entries read so far. *)
Fixpoint read_all (rows : list csv_row) (scores : gmap Z Z) : gmap Z Z :=
  match rows with
  | [] => scores
  | row :: rest =>
      match score_field row, grid_size_field row with
      | Some sc, Some gs => read_all rest (<[gs := sc]> scores)
      | _, _ => scores
      end
  end.

Definition get_all_high_scores (file : csv_file) : gmap Z Z :=
  match file with
  | None => ∅
  | Some rows => read_all rows ∅
  end.

(** ** More of the program: what holds in every game

    The points a state accounts for: 10 for every scored cell but the start
    cell, 1000 for the gold, -50 for the arrow, 300 for the monster. *)
Definition ledger (s : WumpusWorld) : Z :=
  10 * (Z.of_nat (size (scored_cells s)) - 1)
  + (if has_gold s then 1000 else 0)
  - (if arrow_used s then 50 else 0)
  + (if wumpus_alive s then 0 else 300).

(** A placement as [_init_board] makes it. *)
Definition placed (s : WumpusWorld) : Prop :=
  NoDup ((0, 0) :: wumpus s :: gold s :: pits s)
  ∧ Forall (in_grid s) (wumpus s :: gold s :: pits s)
  ∧ length (pits s) = Z.to_nat (num_pits s).

(** What a new game starts with and every action keeps. *)
Definition game_inv (s : WumpusWorld) : Prop :=
  placed s
  ∧ score s = ledger s
  ∧ in_grid s (agent_pos s)
  ∧ agent_pos s ∈ visited s
  ∧ scored_cells s ⊆ visited s
  ∧ (∀ c, c ∈ visited s → in_grid s c)
  ∧ (∀ c, c ∈ scored_cells s → c ∉ pits s)
  ∧ (0, 0) ∈ scored_cells s
  ∧ (has_gold s = true → gold s ∈ visited s)
  ∧ (arrow_used s = false → arrow s = None)
  ∧ (wumpus_alive s = false →
     arrow_used s = true
     ∧ ∃ a, arrow s = Some a ∧ done a = true ∧ hit_wumpus a = true
            ∧ (row a, col a) = wumpus s)
  ∧ (∀ a, arrow s = Some a → hit_wumpus a = true → wumpus_alive s = false)
  ∧ (game_state s = AIM → arrow_used s = false)
  ∧ (game_state s = WIN → has_gold s = true ∧ agent_pos s = (0, 0))
  ∧ (game_state s = GAME_OVER → agent_alive s = false)
  ∧ (wumpus s ∈ scored_cells s → wumpus_alive s = false).

(** A world as the START button, [restart] or the [r] key leave it. *)
Definition new_game (s : WumpusWorld) : Prop :=
  ∃ rnd rounds s0 k k',
    start_game rnd rounds s0 k = Ret s k' ∨ restart rnd rounds s0 k = Ret s k'.

(** The game that the START button begins on the board [sample_placed],
    and a way through it: the shot at the monster next door, six frames,
    two steps to the gold, the grab, and two steps back to the start. *)
Definition sample_game : WumpusWorld := set_game_state PLAYING sample_placed.

Definition sample_play : list (string * action) :=
  [("t1", EnterAim); ("t2", Fire 0 1)] ++ replicate 6 ("t3", Tick)
  ++ [("t4", Move 0 1); ("t5", Move 0 1); ("t6", Grab);
      ("t7", Move 0 (-1)); ("t8", Move 0 (-1))].

(** An arrow shot from the cell [(r, c)] in the direction [(d_r, d_c)], as
    [ArrowProjectile.__init__] sets it up and [update_arrow] moves it: it
    keeps the direction and the increment 0.18, it is some whole cells along
    the line of fire, and while it flies it has hit nothing. *)
Definition launched (r c d_r d_c : Z) (a : ArrowProjectile) : Prop :=
  dr a = d_r ∧ dc a = d_c ∧ speed a = 0x1.70a3d70a3d70ap-3%float
  ∧ (done a = false → hit_wumpus a = false)
  ∧ ∃ n : nat, row a = r + Z.of_nat n * d_r ∧ col a = c + Z.of_nat n * d_c.

(* ===================================================================== *)
(** * Properties *)
(* ===================================================================== *)

(** ** The high score file *)

Section HighScoreFile.
Implicit Types (rows : list csv_row) (scores : gmap Z (Z * string)) (k : Z).

Lemma record_for_absent k rows :
  Some k ∉ grid_size_field <$> rows → record_for k rows = None.
Proof.
  induction rows as [|r rows IH]; simpl; [done|].
  intros Hk. apply not_elem_of_cons in Hk as [Hne Hk].
  rewrite bool_decide_eq_false_2 by congruence. auto.
Qed.

Lemma omap_keys_elem k rows :
  k ∈ omap grid_size_field rows ↔ Some k ∈ grid_size_field <$> rows.
Proof.
  rewrite list_elem_of_omap, list_elem_of_fmap. split; intros (r & ? & ?); eauto.
Qed.

Lemma read_scores_lookup rows : rows_ok rows → ∀ scores k,
  read_scores rows scores !! k = from_option Some (scores !! k) (record_for k rows).
Proof.
  intros [Hok Hnd]. induction Hok as [|r rows [[g Hg] [v Hv]] Hok IH]; intros scores k; simpl.
  { done. }
  simpl in Hnd. rewrite Hg, Hv in *. simpl in Hnd.
  apply NoDup_cons in Hnd as [Hnotin Hnd]. rewrite IH by done. simpl.
  case_bool_decide as Hk.
  - simplify_eq. rewrite record_for_absent by (by rewrite <-omap_keys_elem).
    simpl. by rewrite lookup_insert_eq.
  - rewrite lookup_insert_ne by congruence. done.
Qed.

Lemma load_scan_record rows k : Forall row_ok rows →
  load_scan k rows =
    match record_for k rows with Some data => Returned data.1 | None => Exhausted end.
Proof.
  induction 1 as [|r rows [[g Hg] [v Hv]] Hok IH]; simpl; [done|].
  rewrite Hg, Hv. simpl.
  destruct (decide (g = k)) as [->|Hne].
  - by rewrite !bool_decide_eq_true_2.
  - rewrite !bool_decide_eq_false_2 by congruence. done.
Qed.

Lemma record_for_elem rows k v d : rows_ok rows →
  record_for k rows = Some (v, d) ↔ CsvRow (Some k) (Some v) d ∈ rows.
Proof.
  intros [Hok Hnd]. induction Hok as [|r rows [[g Hg] [w Hw]] Hok IH]; simpl.
  { split; [done|]. by intros ?%elem_of_nil. }
  simpl in Hnd. rewrite Hg in Hnd. simpl in Hnd.
  apply NoDup_cons in Hnd as [Hnotin Hnd].
  rewrite elem_of_cons, <-IH by done. destruct r as [rg rs rd]; simpl in *. subst.
  case_bool_decide as Hk; simpl.
  - simplify_eq. rewrite record_for_absent by (by rewrite <-omap_keys_elem).
    split; [by intros [= -> ->]; left|]. by intros [[= -> ->]|?].
  - split; [by right|]. by intros [?|?]; [congruence|].
Qed.

Lemma write_rows_keys scores :
  omap grid_size_field (write_rows scores) = (merge_sort key_le (map_to_list scores)).*1.
Proof.
  unfold write_rows. generalize (merge_sort key_le (map_to_list scores)).
  intros l. induction l as [|e l IH]; [done|]. csimpl. by rewrite IH.
Qed.

Lemma write_rows_ok scores : rows_ok (write_rows scores).
Proof.
  split.
  - unfold write_rows. apply Forall_fmap, Forall_forall. intros e _. split; simpl; eauto.
  - rewrite write_rows_keys, merge_sort_Permutation. apply NoDup_fst_map_to_list.
Qed.

Lemma record_for_write_rows scores k : record_for k (write_rows scores) = scores !! k.
Proof.
  apply option_eq. intros [v d].
  rewrite record_for_elem by apply write_rows_ok.
  unfold write_rows. rewrite list_elem_of_fmap. split.
  - intros ([k' [v' d']] & Heq & Hin). simpl in Heq. simplify_eq.
    rewrite merge_sort_Permutation in Hin. by apply elem_of_map_to_list in Hin.
  - intros Hl. exists (k, (v, d)). split; [done|].
    rewrite merge_sort_Permutation. by apply elem_of_map_to_list.
Qed.

(** On a well-formed file, what [load_high_score] returns is the score
    of the record, or 0. *)
Lemma load_high_score_record rows k : rows_ok rows →
  load_high_score (Some rows) k = from_option fst 0 (record_for k rows).
Proof.
  intros [Hok _]. unfold load_high_score. rewrite load_scan_record by done.
  by destruct (record_for k rows).
Qed.

Lemma read_scores_file_lookup file k : file_ok file →
  match file with None => ∅ | Some rows => read_scores rows ∅ end !! k
  = record_for k (rows_of file).
Proof.
  destruct file as [rows|]; simpl; intros Hok; [|done].
  rewrite read_scores_lookup by done. rewrite lookup_empty.
  by destruct (record_for k rows).
Qed.

Lemma load_high_score_file file k : file_ok file →
  load_high_score file k = from_option fst 0 (record_for k (rows_of file)).
Proof.
  destruct file as [rows|]; simpl; intros Hok; [|done].
  by apply load_high_score_record.
Qed.
End HighScoreFile.

Section SaveHighScore.
Implicit Types (file : csv_file) (rows : list csv_row).

Lemma rows_of_ok file : file_ok file → rows_ok (rows_of file).
Proof.
  destruct file; simpl; [done|]. intros _. split; [constructor|]. apply NoDup_nil_2.
Qed.

Lemma row_ok_shape r : row_ok r →
  ∃ g v, r = CsvRow (Some g) (Some v) (date_field r).
Proof. destruct r as [rg rs rd]. intros [[g ?] [v ?]]; simpl in *. subst. eauto. Qed.

(** The comparison in [save_high_score] is against what
    [load_high_score] reports. *)
Lemma save_high_score_unfold now file gs sc : file_ok file →
  save_high_score now file gs sc =
    if bool_decide (load_high_score file gs < sc) then
      Some (write_rows
              (<[gs := (sc, now)]>
                 (match file with None => ∅ | Some rows => read_scores rows ∅ end)))
    else file.
Proof.
  intros Hok. unfold save_high_score.
  rewrite read_scores_file_lookup, load_high_score_file by done.
  by destruct (record_for gs (rows_of file)).
Qed.

Lemma load_high_score_written (scores : gmap Z (Z * string)) k :
  load_high_score (Some (write_rows scores)) k = from_option fst 0 (scores !! k).
Proof.
  rewrite load_high_score_record by apply write_rows_ok.
  by rewrite record_for_write_rows.
Qed.

Lemma save_high_score_ok now file gs sc :
  file_ok file → file_ok (save_high_score now file gs sc).
Proof.
  intros Hok. rewrite save_high_score_unfold by done.
  case_bool_decide; [apply write_rows_ok|done].
Qed.

Lemma save_high_score_same now file gs sc : file_ok file →
  load_high_score (save_high_score now file gs sc) gs
  = Z.max (load_high_score file gs) sc.
Proof.
  intros Hok. rewrite save_high_score_unfold by done. case_bool_decide.
  - rewrite load_high_score_written, lookup_insert_eq. simpl. lia.
  - lia.
Qed.

Lemma save_high_score_other now file gs sc gs' : file_ok file → gs' ≠ gs →
  load_high_score (save_high_score now file gs sc) gs' = load_high_score file gs'.
Proof.
  intros Hok Hne. rewrite save_high_score_unfold by done. case_bool_decide; [|done].
  rewrite load_high_score_written, lookup_insert_ne by done.
  by rewrite read_scores_file_lookup, load_high_score_file.
Qed.

Lemma save_high_score_other_rows now file gs sc r : file_ok file →
  grid_size_field r ≠ Some gs →
  r ∈ rows_of (save_high_score now file gs sc) ↔ r ∈ rows_of file.
Proof.
  intros Hok Hne. rewrite save_high_score_unfold by done. case_bool_decide; [|done].
  simpl. set (scores := match file with None => ∅ | Some rows => _ end).
  assert (Hrec : ∀ g v d, g ≠ gs →
    CsvRow (Some g) (Some v) d ∈ write_rows (<[gs := (sc, now)]> scores)
    ↔ CsvRow (Some g) (Some v) d ∈ rows_of file).
  { intros g v d Hg.
    rewrite <-!record_for_elem by auto using write_rows_ok, rows_of_ok.
    rewrite record_for_write_rows, lookup_insert_ne by done.
    unfold scores. by rewrite read_scores_file_lookup. }
  split; intros Hin.
  - pose proof (proj1 (Forall_forall _ _) (proj1 (write_rows_ok _)) r Hin)
      as (g & v & Hr)%row_ok_shape.
    assert (g ≠ gs) by (intros ->; apply Hne; by rewrite Hr).
    rewrite Hr in Hin |- *. by apply Hrec.
  - pose proof (proj1 (Forall_forall _ _) (proj1 (rows_of_ok _ Hok)) r Hin)
      as (g & v & Hr)%row_ok_shape.
    assert (g ≠ gs) by (intros ->; apply Hne; by rewrite Hr).
    rewrite Hr in Hin |- *. by apply Hrec.
Qed.

Lemma save_all_ok saves file : file_ok file → file_ok (save_all saves file).
Proof.
  revert file. induction saves as [|[[now gs] sc] saves IH]; intros file Hok; simpl.
  - done.
  - by apply IH, save_high_score_ok.
Qed.

Lemma save_all_monotone saves file k : file_ok file →
  load_high_score file k ≤ load_high_score (save_all saves file) k.
Proof.
  revert file. induction saves as [|[[now gs] sc] saves IH]; intros file Hok; simpl.
  - lia.
  - etrans; [|apply IH, save_high_score_ok, Hok].
    destruct (decide (k = gs)) as [->|Hne].
    + rewrite save_high_score_same by done. lia.
    + rewrite save_high_score_other by done. lia.
Qed.
End SaveHighScore.

(** C6. On a high score file that holds one well-formed record per grid
    size (or on no file), [save_high_score grid_size score] leaves a file of
    that kind and: changes nothing unless [score] is strictly above the value
    [load_high_score] reports for [grid_size]; after saving a strictly higher
    score, [load_high_score] reports that score; the value reported for
    [grid_size] never goes down, in one save or over any sequence of saves;
    and for every other grid size the reported value and the rows of the
    file are the same as before. *)
Theorem save_high_score_keeps_best now file gs sc :
  file_ok file →
  file_ok (save_high_score now file gs sc)
  ∧ (sc ≤ load_high_score file gs → save_high_score now file gs sc = file)
  ∧ (load_high_score file gs < sc →
     load_high_score (save_high_score now file gs sc) gs = sc)
  ∧ (∀ saves k, load_high_score file k ≤ load_high_score (save_all saves file) k)
  ∧ (∀ gs', gs' ≠ gs →
     load_high_score (save_high_score now file gs sc) gs' = load_high_score file gs')
  ∧ (∀ r, grid_size_field r ≠ Some gs →
     r ∈ rows_of (save_high_score now file gs sc) ↔ r ∈ rows_of file).
Proof.
  intros Hok. split_and!.
  - by apply save_high_score_ok.
  - intros Hle. rewrite save_high_score_unfold by done.
    by rewrite bool_decide_eq_false_2 by lia.
  - intros Hlt. rewrite save_high_score_same by done. lia.
  - intros saves k. by apply save_all_monotone.
  - intros gs' Hne. by apply save_high_score_other.
  - intros r Hne. by apply save_high_score_other_rows.
Qed.

(** The scenario of the specification: 500 is stored for grid size 6, then
    300 is saved. *)
Lemma save_high_score_keeps_best_witness :
  file_ok sample_file
  ∧ file_ok (save_high_score "2024-01-03 09:00:00" sample_file 6 300)
  ∧ (300 ≤ load_high_score sample_file 6 →
     save_high_score "2024-01-03 09:00:00" sample_file 6 300 = sample_file)
  ∧ (load_high_score sample_file 6 < 300 →
     load_high_score (save_high_score "2024-01-03 09:00:00" sample_file 6 300) 6 = 300)
  ∧ (∀ saves k,
     load_high_score sample_file k ≤ load_high_score (save_all saves sample_file) k)
  ∧ (∀ gs', gs' ≠ 6 →
     load_high_score (save_high_score "2024-01-03 09:00:00" sample_file 6 300) gs'
     = load_high_score sample_file gs')
  ∧ (∀ r, grid_size_field r ≠ Some 6 →
     r ∈ rows_of (save_high_score "2024-01-03 09:00:00" sample_file 6 300)
     ↔ r ∈ rows_of sample_file).
Proof.
  assert (Hok : file_ok sample_file).
  { split.
    - repeat constructor; simpl; eauto.
    - apply (bool_decide_unpack _). vm_compute. exact I. }
  split; [exact Hok|].
  exact (save_high_score_keeps_best "2024-01-03 09:00:00" sample_file 6 300 Hok).
Defined.

(** Saving 500 and then 300 for grid size 6, from no file: 500 stays. *)
Example save_500_then_300 :
  load_high_score (save_all [("t1"%string, 6, 500); ("t2"%string, 6, 300)] None) 6 = 500.
Proof. vm_compute. reflexivity. Qed.

(** Outside that data model the two functions read the file differently:
    [load_high_score] returns at the first row of a grid size, the dict of
    [save_high_score] keeps the last one. *)
Example save_on_duplicate_rows :
  load_high_score (Some [CsvRow (Some 6) (Some 500) "a"; CsvRow (Some 6) (Some 100) "b"]) 6
  = 500
  ∧ load_high_score
      (save_high_score "c"
         (Some [CsvRow (Some 6) (Some 500) "a"; CsvRow (Some 6) (Some 100) "b"]) 6 300) 6
    = 300.
Proof. split; vm_compute; reflexivity. Qed.

(** ** Scoring *)

Section AddScore.
Variables (now : string) (pts r c : Z) (s : WumpusWorld).

(** [_add_score] touches the score, the high score, the file and the
    popups, and nothing else. *)
Lemma _add_score_frame :
  grid_size (_add_score now pts r c s) = grid_size s
  ∧ num_pits (_add_score now pts r c s) = num_pits s
  ∧ game_state (_add_score now pts r c s) = game_state s
  ∧ agent_pos (_add_score now pts r c s) = agent_pos s
  ∧ agent_alive (_add_score now pts r c s) = agent_alive s
  ∧ has_gold (_add_score now pts r c s) = has_gold s
  ∧ wumpus_alive (_add_score now pts r c s) = wumpus_alive s
  ∧ arrow_used (_add_score now pts r c s) = arrow_used s
  ∧ visited (_add_score now pts r c s) = visited s
  ∧ scored_cells (_add_score now pts r c s) = scored_cells s
  ∧ message (_add_score now pts r c s) = message s
  ∧ aim_dir (_add_score now pts r c s) = aim_dir s
  ∧ arrow (_add_score now pts r c s) = arrow s
  ∧ wumpus (_add_score now pts r c s) = wumpus s
  ∧ gold (_add_score now pts r c s) = gold s
  ∧ pits (_add_score now pts r c s) = pits s.
Proof. unfold _add_score. simpl. case_bool_decide; simpl; repeat split. Qed.

Lemma _add_score_score : score (_add_score now pts r c s) = score s + pts.
Proof. unfold _add_score. simpl. by case_bool_decide. Qed.

Lemma _add_score_popups :
  popups (_add_score now pts r c s) = popups s ++ [Popup r c pts].
Proof. unfold _add_score. simpl. by case_bool_decide. Qed.

Lemma _add_score_high_score :
  high_score (_add_score now pts r c s) = Z.max (high_score s) (score s + pts).
Proof. unfold _add_score. simpl. case_bool_decide; simpl; lia. Qed.
End AddScore.

Arguments _add_score : simpl never.

(** Rewriting with the frame of [_add_score]. *)
Ltac add_score_frame :=
  repeat match goal with
  | |- context [_add_score ?n ?p ?r ?c ?s] =>
      lazymatch goal with
      | _ : grid_size (_add_score n p r c s) = _ |- _ => fail
      | _ => pose proof (_add_score_frame n p r c s)
             as (? & ? & ? & ? & ? & ? & ? & ? & ? & ? & ? & ? & ? & ? & ? & ?);
             pose proof (_add_score_score n p r c s);
             pose proof (_add_score_popups n p r c s)
      end
  end.

(** ** Moving *)

Section Move.
Variables (now : string) (dx dy : Z).

Lemma move_not_playing s : game_state s ≠ PLAYING → move now dx dy s = s.
Proof. intros Hst. unfold move. by rewrite bool_decide_eq_false_2. Qed.

Lemma move_off_grid s : ¬ in_grid s (target s dx dy) → move now dx dy s = s.
Proof.
  intros Hout. unfold move. destruct (negb _); [done|].
  unfold in_grid, target in Hout. destruct (agent_pos s) as [x y]; simpl in *.
  by rewrite bool_decide_eq_false_2.
Qed.
End Move.

Section MoveStages.
Variables (now : string) (s : WumpusWorld).

Lemma safe_flag_spec c :
  bool_decide (c ∉ pits s) && negb (bool_decide (c = wumpus s) && wumpus_alive s) = true
  ↔ ¬ deadly s c.
Proof.
  unfold deadly.
  rewrite andb_true_iff, negb_true_iff, andb_false_iff, bool_decide_eq_true,
    bool_decide_eq_false.
  split.
  - intros [Hpit Hw] [?|[Ha ->]]; [done|]. destruct Hw; congruence.
  - intros Hnd. split; [tauto|].
    destruct (wumpus_alive s); [left|by right]. intros ->. apply Hnd. by right.
Qed.

Lemma score_visit_frame nx ny :
  grid_size (score_visit now nx ny s) = grid_size s
  ∧ game_state (score_visit now nx ny s) = game_state s
  ∧ agent_pos (score_visit now nx ny s) = agent_pos s
  ∧ agent_alive (score_visit now nx ny s) = agent_alive s
  ∧ has_gold (score_visit now nx ny s) = has_gold s
  ∧ wumpus_alive (score_visit now nx ny s) = wumpus_alive s
  ∧ arrow_used (score_visit now nx ny s) = arrow_used s
  ∧ visited (score_visit now nx ny s) = visited s
  ∧ arrow (score_visit now nx ny s) = arrow s
  ∧ wumpus (score_visit now nx ny s) = wumpus s
  ∧ gold (score_visit now nx ny s) = gold s
  ∧ pits (score_visit now nx ny s) = pits s.
Proof.
  unfold score_visit. destruct (_ && bool_decide _); [|by repeat split].
  add_score_frame. cbn in *. repeat split; congruence.
Qed.

Lemma score_visit_awarded nx ny :
  ¬ deadly s (nx, ny) → (nx, ny) ∉ scored_cells s →
  score (score_visit now nx ny s) = score s + 10
  ∧ scored_cells (score_visit now nx ny s) = scored_cells s ∪ {[(nx, ny)]}
  ∧ popups (score_visit now nx ny s) = popups s ++ [Popup nx ny 10].
Proof.
  intros Hsafe%safe_flag_spec Hnew. unfold score_visit.
  rewrite Hsafe, bool_decide_eq_true_2 by done. cbn.
  add_score_frame. cbn in *. repeat split; congruence.
Qed.

Lemma score_visit_withheld nx ny :
  deadly s (nx, ny) ∨ (nx, ny) ∈ scored_cells s → score_visit now nx ny s = s.
Proof.
  intros Hno. unfold score_visit.
  destruct (bool_decide _ && negb _) eqn:Hsafe; [|done].
  apply safe_flag_spec in Hsafe. destruct Hno as [?|Hin]; [done|].
  by rewrite bool_decide_eq_false_2 by (by intros Hn; apply Hn).
Qed.

Lemma _check_danger_frame :
  grid_size (_check_danger s) = grid_size s
  ∧ agent_pos (_check_danger s) = agent_pos s
  ∧ has_gold (_check_danger s) = has_gold s
  ∧ wumpus_alive (_check_danger s) = wumpus_alive s
  ∧ arrow_used (_check_danger s) = arrow_used s
  ∧ visited (_check_danger s) = visited s
  ∧ scored_cells (_check_danger s) = scored_cells s
  ∧ score (_check_danger s) = score s
  ∧ high_score (_check_danger s) = high_score s
  ∧ popups (_check_danger s) = popups s
  ∧ arrow (_check_danger s) = arrow s
  ∧ wumpus (_check_danger s) = wumpus s
  ∧ gold (_check_danger s) = gold s
  ∧ pits (_check_danger s) = pits s
  ∧ highscore_csv (_check_danger s) = highscore_csv s.
Proof.
  unfold _check_danger. case_bool_decide; [by repeat split|].
  destruct (_ && _); by repeat split.
Qed.

Lemma _check_danger_dead :
  deadly s (agent_pos s) →
  agent_alive (_check_danger s) = false ∧ game_state (_check_danger s) = GAME_OVER.
Proof.
  intros Hd. unfold _check_danger. case_bool_decide as Hpit; [done|].
  destruct Hd as [?|[Ha Hw]]; [done|]. by rewrite Ha, bool_decide_eq_true_2.
Qed.

Lemma _check_danger_alive : ¬ deadly s (agent_pos s) → _check_danger s = s.
Proof.
  intros Hd. unfold _check_danger. unfold deadly in Hd.
  rewrite bool_decide_eq_false_2 by tauto.
  destruct (wumpus_alive s); [|by rewrite andb_false_r].
  rewrite bool_decide_eq_false_2; [done|]. intros Hw. apply Hd. by right.
Qed.

Lemma auto_win_frame :
  grid_size (auto_win s) = grid_size s
  ∧ agent_pos (auto_win s) = agent_pos s
  ∧ agent_alive (auto_win s) = agent_alive s
  ∧ has_gold (auto_win s) = has_gold s
  ∧ wumpus_alive (auto_win s) = wumpus_alive s
  ∧ arrow_used (auto_win s) = arrow_used s
  ∧ visited (auto_win s) = visited s
  ∧ scored_cells (auto_win s) = scored_cells s
  ∧ score (auto_win s) = score s
  ∧ high_score (auto_win s) = high_score s
  ∧ popups (auto_win s) = popups s
  ∧ arrow (auto_win s) = arrow s
  ∧ wumpus (auto_win s) = wumpus s
  ∧ gold (auto_win s) = gold s
  ∧ pits (auto_win s) = pits s
  ∧ highscore_csv (auto_win s) = highscore_csv s.
Proof. unfold auto_win. destruct (_ && _); by repeat split. Qed.

Lemma auto_win_state :
  game_state (auto_win s) =
    if has_gold s && bool_decide (agent_pos s = (0, 0))
       && bool_decide (game_state s = PLAYING)
    then WIN else game_state s.
Proof. unfold auto_win. by destruct (_ && _). Qed.
End MoveStages.

Arguments score_visit : simpl never.
Arguments _check_danger : simpl never.
Arguments auto_win : simpl never.

Section MoveOnGrid.
Variables (now : string) (dx dy : Z) (s : WumpusWorld).
Hypothesis Hplaying : game_state s = PLAYING.
Hypothesis Hin : in_grid s (target s dx dy).

(** The state when [move] reaches the bonus, and after it. *)
Local Abbreviation arrived :=
  (set_visited (visited s ∪ {[target s dx dy]}) (set_agent_pos (target s dx dy) s)).
Local Abbreviation scored :=
  (score_visit now (target s dx dy).1 (target s dx dy).2 arrived).

Lemma move_on_grid : move now dx dy s = auto_win (_check_danger scored).
Proof using Hplaying Hin.
  unfold move. rewrite Hplaying, (bool_decide_eq_true_2 (PLAYING = PLAYING)) by done.
  unfold in_grid, target in *. destruct (agent_pos s) as [x y]. cbn in *.
  by rewrite bool_decide_eq_true_2.
Qed.

Lemma scored_deadly c : deadly scored c ↔ deadly s c.
Proof using Type.
  unfold deadly.
  destruct (score_visit_frame now arrived (target s dx dy).1 (target s dx dy).2)
    as (_ & _ & _ & _ & _ & Hw & _ & _ & _ & Hwp & _ & Hp).
  by rewrite Hw, Hwp, Hp.
Qed.

Lemma scored_agent_pos : agent_pos scored = target s dx dy.
Proof using Type.
  destruct (score_visit_frame now arrived (target s dx dy).1 (target s dx dy).2)
    as (_ & _ & Hpos & _).
  by rewrite Hpos.
Qed.

Lemma scored_state :
  game_state scored = PLAYING ∧ agent_alive scored = agent_alive s
  ∧ has_gold scored = has_gold s ∧ visited scored = visited s ∪ {[target s dx dy]}.
Proof using Hplaying.
  destruct (score_visit_frame now arrived (target s dx dy).1 (target s dx dy).2)
    as (_ & Hst & _ & Ha & Hg & _ & _ & Hv & _).
  by rewrite Hst, Ha, Hg, Hv.
Qed.

Lemma move_agent_pos : agent_pos (move now dx dy s) = target s dx dy.
Proof using Hplaying Hin.
  rewrite move_on_grid.
  destruct (auto_win_frame (_check_danger scored)) as (_ & -> & _).
  destruct (_check_danger_frame scored) as (_ & -> & _).
  apply scored_agent_pos.
Qed.

Lemma move_visited : visited (move now dx dy s) = visited s ∪ {[target s dx dy]}.
Proof using Hplaying Hin.
  rewrite move_on_grid.
  destruct (auto_win_frame (_check_danger scored)) as (_ & _ & _ & _ & _ & _ & -> & _).
  destruct (_check_danger_frame scored) as (_ & _ & _ & _ & _ & -> & _).
  apply scored_state.
Qed.

Lemma move_into_danger :
  deadly s (target s dx dy) →
  agent_alive (move now dx dy s) = false ∧ game_state (move now dx dy s) = GAME_OVER.
Proof using Hplaying Hin.
  intros Hd. rewrite move_on_grid.
  destruct (_check_danger_dead scored) as [Ha Hst].
  { rewrite scored_agent_pos. by apply scored_deadly. }
  destruct (auto_win_frame (_check_danger scored)) as (_ & _ & -> & _).
  rewrite auto_win_state, Hst, Ha. split; [done|].
  rewrite (bool_decide_eq_false_2 (GAME_OVER = PLAYING)) by done.
  by rewrite andb_false_r.
Qed.

Lemma move_out_of_danger :
  ¬ deadly s (target s dx dy) →
  agent_alive (move now dx dy s) = agent_alive s
  ∧ game_state (move now dx dy s) =
      if has_gold s && bool_decide (target s dx dy = (0, 0)) then WIN else PLAYING.
Proof using Hplaying Hin.
  intros Hd. rewrite move_on_grid.
  rewrite _check_danger_alive by (by rewrite scored_agent_pos, scored_deadly).
  destruct (auto_win_frame scored) as (_ & _ & -> & _).
  rewrite auto_win_state, scored_agent_pos.
  destruct scored_state as (-> & -> & -> & _).
  rewrite (bool_decide_eq_true_2 (PLAYING = PLAYING)) by done.
  by rewrite andb_true_r.
Qed.
End MoveOnGrid.

(** C1. In the Playing state, [move] towards a cell outside the grid
    changes nothing at all.  Towards a cell of the grid it puts the agent on
    that cell and adds the cell to [visited]; if the cell is a pit or the
    cell of the live monster the agent is dead and the game is over;
    otherwise the agent's life is untouched and the game is won when the
    agent carries the gold and the cell is (0,0), and still being played if
    not. *)
Theorem move_semantics now dx dy s :
  game_state s = PLAYING →
  (¬ in_grid s (target s dx dy) → move now dx dy s = s)
  ∧ (in_grid s (target s dx dy) →
     agent_pos (move now dx dy s) = target s dx dy
     ∧ visited (move now dx dy s) = visited s ∪ {[target s dx dy]}
     ∧ (deadly s (target s dx dy) →
        agent_alive (move now dx dy s) = false
        ∧ game_state (move now dx dy s) = GAME_OVER)
     ∧ (¬ deadly s (target s dx dy) →
        agent_alive (move now dx dy s) = agent_alive s
        ∧ game_state (move now dx dy s) =
            if has_gold s && bool_decide (target s dx dy = (0, 0))
            then WIN else PLAYING)).
Proof.
  intros Hst. split; [apply move_off_grid|]. intros Hin. split_and!.
  - by apply move_agent_pos.
  - by apply move_visited.
  - by apply move_into_danger.
  - by apply move_out_of_danger.
Qed.

Lemma move_semantics_witness :
  game_state sample_world = PLAYING
  ∧ (¬ in_grid sample_world (target sample_world 0 1) →
     move "12:00:00" 0 1 sample_world = sample_world)
  ∧ (in_grid sample_world (target sample_world 0 1) →
     agent_pos (move "12:00:00" 0 1 sample_world) = target sample_world 0 1
     ∧ visited (move "12:00:00" 0 1 sample_world)
       = visited sample_world ∪ {[target sample_world 0 1]}
     ∧ (deadly sample_world (target sample_world 0 1) →
        agent_alive (move "12:00:00" 0 1 sample_world) = false
        ∧ game_state (move "12:00:00" 0 1 sample_world) = GAME_OVER)
     ∧ (¬ deadly sample_world (target sample_world 0 1) →
        agent_alive (move "12:00:00" 0 1 sample_world) = agent_alive sample_world
        ∧ game_state (move "12:00:00" 0 1 sample_world) =
            if has_gold sample_world && bool_decide (target sample_world 0 1 = (0, 0))
            then WIN else PLAYING)).
Proof.
  split; [reflexivity|].
  exact (move_semantics "12:00:00" 0 1 sample_world eq_refl).
Defined.


(** ** What the actions of a game instance keep *)

Section Persistence.
Variable now : string.
Implicit Types s : WumpusWorld.

Lemma persists_refl s : persists s s.
Proof. by repeat split. Qed.

Lemma persists_trans s1 s2 s3 : persists s1 s2 → persists s2 s3 → persists s1 s3.
Proof.
intros (Hg & Hn & Hw & Ho & Hp & Hs & Hv & Ha & Hm & Hc)
  (Hg' & Hn' & Hw' & Ho' & Hp' & Hs' & Hv' & Ha' & Hm' & Hc').
repeat split; try congruence; try set_solver; auto.
Qed.

Ltac persists_setters :=
  cbn in *; repeat split; intros; cbn in *; try congruence; try set_solver.

Lemma _add_score_persists pts r c s : persists s (_add_score now pts r c s).
Proof. add_score_frame. repeat split; intros; try congruence; set_solver. Qed.

Lemma score_visit_persists nx ny s : persists s (score_visit now nx ny s).
Proof.
unfold score_visit.
match goal with |- persists _ (if ?b then _ else _) => destruct b end;
  [|apply persists_refl].
eapply persists_trans; [|apply _add_score_persists]. persists_setters.
Qed.

Lemma _check_danger_persists s : persists s (_check_danger s).
Proof.
unfold _check_danger. case_bool_decide; [persists_setters|].
destruct (_ && _); persists_setters.
Qed.

Lemma auto_win_persists s : persists s (auto_win s).
Proof. unfold auto_win. destruct (_ && _); persists_setters. Qed.

Lemma move_persists dx dy s : persists s (move now dx dy s).
Proof.
destruct (decide (game_state s = PLAYING)) as [Hst|Hst];
  [|rewrite move_not_playing by done; apply persists_refl].
destruct (decide (in_grid s (target s dx dy))) as [Hin|Hin];
  [|rewrite move_off_grid by done; apply persists_refl].
rewrite move_on_grid by done.
eapply persists_trans; [|apply auto_win_persists].
eapply persists_trans; [|apply _check_danger_persists].
eapply persists_trans; [|apply score_visit_persists].
persists_setters.
Qed.

Lemma grab_persists s : persists s (grab now s).
Proof.
unfold grab. destruct (negb _); [apply persists_refl|].
destruct (agent_pos s) as [r c].
destruct (bool_decide ((r, c) = gold s) && negb (has_gold s)).
- eapply persists_trans with (s2 := set_has_gold true s); [persists_setters|].
  eapply persists_trans; [apply _add_score_persists|].
  destruct (_ && _); persists_setters.
- destruct (_ && _); persists_setters.
Qed.

Lemma fire_arrow_persists dr dc s : persists s (fire_arrow now dr dc s).
Proof.
unfold fire_arrow. destruct (arrow_used s) eqn:Hu; [apply persists_refl|].
cbn. destruct (agent_pos s) as [r c].
eapply persists_trans with (s2 := set_game_state PLAYING (set_arrow_used true s));
  [persists_setters|].
eapply persists_trans; [apply _add_score_persists|]. persists_setters.
Qed.

Lemma update_arrow_persists s : persists s (update_arrow now s).
Proof.
unfold update_arrow. destruct (arrow s) as [a|]; [|apply persists_refl].
destruct (done a); [apply persists_refl|].
destruct (1 <=? frac a + speed a)%float; [|persists_setters].
destruct (wumpus_alive s && _) eqn:Hhit.
- match goal with |- persists _ (set_message _ (_add_score _ _ _ _ ?s0)) =>
    eapply persists_trans with (s2 := s0) end; [persists_setters|].
  eapply persists_trans; [apply _add_score_persists|]. persists_setters.
- destruct (negb _); persists_setters.
Qed.

Lemma step_persists a s : persists s (step now a s).
Proof.
destruct a; simpl.
- apply move_persists.
- unfold enter_aim_mode. destruct (_ || _); persists_setters.
- apply grab_persists.
- apply fire_arrow_persists.
- unfold cancel_aim. persists_setters.
- persists_setters.
- persists_setters.
- apply update_arrow_persists.
Qed.
End Persistence.

Lemma run_persists tr s : persists s (run tr s).
Proof.
revert s. induction tr as [|[now a] tr IH]; intros s; simpl.
- apply persists_refl.
- eapply persists_trans; [apply step_persists|apply IH].
Qed.

(** ** World generation *)

Section GenerationFacts.
Variable rnd : nat → Z.
Implicit Types (k : nat) (c : Z * Z).

Lemma bind_ret_inv {A B} (m : Gen A) (f : A → Gen B) k b k' :
  (m ≫= f) k = Ret b k' → ∃ a k1, m k = Ret a k1 ∧ f a k1 = Ret b k'.
Proof.
unfold mbind, Gen_bind. destruct (m k) as [a k1| |]; [|done..]. eauto.
Qed.

Lemma bind_ret {A B} (m : Gen A) (f : A → Gen B) k a k1 :
  m k = Ret a k1 → (m ≫= f) k = f a k1.
Proof. unfold mbind, Gen_bind. by intros ->. Qed.

Lemma randint_ret lo hi k z k' :
  randint rnd lo hi k = Ret z k' →
  lo ≤ hi ∧ z = lo + (rnd k `mod` (hi - lo + 1)) ∧ k' = S k.
Proof. unfold randint. case_bool_decide; [done|]. intros [= <- <-]. split; [lia|done]. Qed.

Lemma randint_range lo hi k z k' : randint rnd lo hi k = Ret z k' → lo ≤ z ≤ hi.
Proof.
intros (Hle & -> & _)%randint_ret.
pose proof (Z.mod_pos_bound (rnd k) (hi - lo + 1)). lia.
Qed.

(** A cell that [_rand] returns lies in the grid and outside [exclude]. *)
Lemma _rand_ret rounds gs exclude k c k' :
  _rand rnd rounds gs exclude k = Ret c k' →
  (c ∉ exclude) ∧ 0 ≤ c.1 < gs ∧ 0 ≤ c.2 < gs.
Proof.
revert k. induction rounds as [|rounds IH]; intros k; simpl; [done|].
intros (r & k1 & Hr & Hrest)%bind_ret_inv.
apply bind_ret_inv in Hrest as (c0 & k2 & Hc & Hrest).
apply randint_range in Hr, Hc. case_bool_decide as Hex.
- injection Hrest as <- <-. simpl. split; [done|lia].
- eauto.
Qed.

(** The pits loop appends [n] cells, each in the grid and away from the
    start, the monster, the gold and the pits before it. *)
Lemma place_pits_ret rounds gs w g n pits k ps k' :
  place_pits rnd rounds gs w g n pits k = Ret ps k' →
  NoDup ([(0, 0); w; g] ++ pits) →
  NoDup ([(0, 0); w; g] ++ ps)
  ∧ length ps = (length pits + n)%nat
  ∧ (Forall (λ c, 0 ≤ c.1 < gs ∧ 0 ≤ c.2 < gs) pits →
     Forall (λ c, 0 ≤ c.1 < gs ∧ 0 ≤ c.2 < gs) ps).
Proof.
revert pits k. induction n as [|n IH]; intros pits k; simpl.
- intros [= <- <-] Hnd. split; [done|]. split; [lia|done].
- intros (p & k1 & Hrand & Hrest)%bind_ret_inv Hnd.
  apply _rand_ret in Hrand as (Hnotin & Hp).
  apply IH in Hrest as (Hnd' & Hlen & Hall).
  + split; [done|]. split; [rewrite Hlen, length_app; simpl; lia|].
    intros Hpits. apply Hall, Forall_app. split; [done|]. by constructor.
  + rewrite app_assoc. apply NoDup_app. split; [done|].
    split; [|apply NoDup_singleton].
    intros c Hc ->%list_elem_of_singleton. done.
Qed.

(** What [_init_board] returns is a board over a placement of distinct
    cells of the grid, with [num_pits] pits. *)
Lemma _init_board_ret rounds s k s' k' :
  _init_board rnd rounds s k = Ret s' k' →
  ∃ w g ps,
    s' = board s w g ps
    ∧ NoDup ((0, 0) :: w :: g :: ps)
    ∧ length ps = Z.to_nat (num_pits s)
    ∧ Forall (λ c, 0 ≤ c.1 < grid_size s ∧ 0 ≤ c.2 < grid_size s) (w :: g :: ps).
Proof.
unfold _init_board.
intros (w & k1 & Hrw & Hrest)%bind_ret_inv.
apply _rand_ret in Hrw as (Hw & Hwin).
apply bind_ret_inv in Hrest as (g & k2 & Hrg & Hrest).
apply _rand_ret in Hrg as (Hg & Hgin).
apply bind_ret_inv in Hrest as (ps & k3 & Hps & [= <- <-]).
apply place_pits_ret in Hps as (Hnd & Hlen & Hall).
- exists w, g, ps. split; [done|]. split; [done|]. split; [done|].
  repeat constructor; try tauto. by apply Hall.
- simpl. apply not_elem_of_cons in Hw as [Hw _].
  apply not_elem_of_cons in Hg as [Hg0 Hgw]. apply not_elem_of_cons in Hgw as [Hgw _].
  apply NoDup_cons. split.
  { rewrite !not_elem_of_cons. repeat split; [congruence..|apply not_elem_of_nil]. }
  apply NoDup_cons. split; [|apply NoDup_singleton].
  rewrite list_elem_of_singleton. congruence.
Qed.
End GenerationFacts.

(** C5. In every world that [_init_board] returns, the start cell, the
    monster's cell, the gold's cell and the pits are pairwise distinct, and
    there are [grid_size] pits. *)
Theorem generated_world_distinct rnd rounds s k s' k' :
  num_pits s = grid_size s →
  _init_board rnd rounds s k = Ret s' k' →
  NoDup ((0, 0) :: wumpus s' :: gold s' :: pits s')
  ∧ Z.of_nat (length (pits s')) = grid_size s'.
Proof.
intros Hnum Hret.
apply _init_board_ret in Hret as (w & g & ps & -> & Hnd & Hlen & Hall).
simpl. split; [done|].
apply Forall_cons in Hall as [Hw _]. rewrite Hlen, Hnum. lia.
Qed.

Lemma generated_world_distinct_witness :
  num_pits (blank 4) = grid_size (blank 4)
  ∧ _init_board sample_rnd 5 (blank 4) 0%nat = Ret sample_placed 12%nat
  ∧ NoDup ((0, 0) :: wumpus sample_placed :: gold sample_placed :: pits sample_placed)
  ∧ Z.of_nat (length (pits sample_placed)) = grid_size sample_placed.
Proof.
assert (Hrun : _init_board sample_rnd 5 (blank 4) 0%nat = Ret sample_placed 12%nat).
{ vm_compute. reflexivity. }
split; [reflexivity|]. split; [exact Hrun|].
exact (generated_world_distinct sample_rnd 5 (blank 4) 0%nat _ 12%nat eq_refl Hrun).
Defined.

(** ** The safe-visit bonus *)

Section Bonus.
Variables (now : string) (dx dy : Z) (s : WumpusWorld).

Lemma move_score_on_grid :
  game_state s = PLAYING → in_grid s (target s dx dy) →
  score (move now dx dy s)
  = score (score_visit now (target s dx dy).1 (target s dx dy).2
             (set_visited (visited s ∪ {[target s dx dy]})
                (set_agent_pos (target s dx dy) s)))
  ∧ scored_cells (move now dx dy s)
    = scored_cells (score_visit now (target s dx dy).1 (target s dx dy).2
                      (set_visited (visited s ∪ {[target s dx dy]})
                         (set_agent_pos (target s dx dy) s))).
Proof.
intros Hst Hin. rewrite move_on_grid by done.
match goal with |- context [auto_win ?s0] =>
  destruct (auto_win_frame s0) as (_ & _ & _ & _ & _ & _ & _ & -> & -> & _) end.
match goal with |- context [_check_danger ?s0] =>
  destruct (_check_danger_frame s0) as (_ & _ & _ & _ & _ & _ & -> & -> & _) end.
done.
Qed.

Lemma move_bonus_awarded :
  game_state s = PLAYING → in_grid s (target s dx dy) →
  ¬ deadly s (target s dx dy) → target s dx dy ∉ scored_cells s →
  score (move now dx dy s) = score s + 10
  ∧ scored_cells (move now dx dy s) = scored_cells s ∪ {[target s dx dy]}.
Proof.
intros Hst Hin Hsafe Hnew.
destruct (move_score_on_grid Hst Hin) as [-> ->].
destruct (target s dx dy) as [nx ny] eqn:Ht. cbn [fst snd].
destruct (score_visit_awarded now
            (set_visited (visited s ∪ {[(nx, ny)]}) (set_agent_pos (nx, ny) s)) nx ny)
  as (-> & -> & _); done.
Qed.

Lemma move_bonus_withheld :
  target s dx dy ∈ scored_cells s → score (move now dx dy s) = score s.
Proof.
intros Hold.
destruct (decide (game_state s = PLAYING)) as [Hst|Hst];
  [|by rewrite move_not_playing].
destruct (decide (in_grid s (target s dx dy))) as [Hin|Hin];
  [|by rewrite move_off_grid].
destruct (move_score_on_grid Hst Hin) as [-> _].
destruct (target s dx dy) as [nx ny] eqn:Ht. cbn [fst snd].
rewrite score_visit_withheld; [done|]. by right.
Qed.
End Bonus.




(** One step right and one step back on the sample board: the score is 10
    after the first move and after the second. *)
Example right_then_back :
  score (run [("t1"%string, Move 0 1)] sample_world) = 10
  ∧ score (run [("t1"%string, Move 0 1); ("t2"%string, Move 0 (-1))] sample_world) = 10.
Proof. split; vm_compute; reflexivity. Qed.

(** ** The arrow *)

Section Arrow.
Variables (now : string) (s : WumpusWorld).

Lemma update_arrow_idle :
  arrow s = None ∨ (∃ a, arrow s = Some a ∧ done a = true) → update_arrow now s = s.
Proof.
intros [Hnone|(a & Ha & Hdone)]; unfold update_arrow.
- by rewrite Hnone.
- by rewrite Ha, Hdone.
Qed.

Lemma update_arrow_progress a :
  arrow s = Some a → done a = false → crosses a = false →
  update_arrow now s
  = set_arrow (Some (Arrow (row a) (col a) (dr a) (dc a) (frac a + speed a)%float
                       (speed a) false (hit_wumpus a))) s.
Proof.
intros Ha Hdone Hcross. unfold update_arrow. unfold crosses in Hcross.
by rewrite Ha, Hdone, Hcross.
Qed.

Lemma update_arrow_hit a :
  arrow s = Some a → done a = false → crosses a = true →
  wumpus_alive s = true → next_cell a = wumpus s →
  update_arrow now s
  = set_message "Wumpus slain! +300 (-50 arrow)"
      (_add_score now 300 (next_cell a).1 (next_cell a).2
         (set_wumpus_alive false
            (set_arrow (Some (Arrow (next_cell a).1 (next_cell a).2 (dr a) (dc a) 0%float
                                (speed a) true true)) s))).
Proof.
intros Ha Hdone Hcross Halive Hcell. unfold update_arrow. unfold crosses, next_cell in *.
rewrite Ha, Hdone, Hcross, Halive. cbn.
by rewrite bool_decide_eq_true_2.
Qed.

Lemma update_arrow_miss a :
  arrow s = Some a → done a = false → crosses a = true →
  ¬ (wumpus_alive s = true ∧ next_cell a = wumpus s) → ¬ in_grid s (next_cell a) →
  update_arrow now s
  = set_message "Arrow missed! (-50 charged on fire)"
      (set_arrow (Some (Arrow (next_cell a).1 (next_cell a).2 (dr a) (dc a) 0%float
                          (speed a) true (hit_wumpus a))) s).
Proof.
intros Ha Hdone Hcross Hnohit Hout. unfold update_arrow. unfold crosses, next_cell, in_grid in *.
rewrite Ha, Hdone, Hcross. cbn in *.
assert (wumpus_alive s && bool_decide ((row a + dr a, col a + dc a) = wumpus s) = false)
  as ->.
{ destruct (wumpus_alive s); [|done]. cbn. apply bool_decide_eq_false_2. tauto. }
by rewrite bool_decide_eq_false_2.
Qed.

Lemma update_arrow_fly a :
  arrow s = Some a → done a = false → crosses a = true →
  ¬ (wumpus_alive s = true ∧ next_cell a = wumpus s) → in_grid s (next_cell a) →
  update_arrow now s
  = set_arrow (Some (Arrow (next_cell a).1 (next_cell a).2 (dr a) (dc a) 0%float
                       (speed a) false (hit_wumpus a))) s.
Proof.
intros Ha Hdone Hcross Hnohit Hin. unfold update_arrow. unfold crosses, next_cell, in_grid in *.
rewrite Ha, Hdone, Hcross. cbn in *.
assert (wumpus_alive s && bool_decide ((row a + dr a, col a + dc a) = wumpus s) = false)
  as ->.
{ destruct (wumpus_alive s); [|done]. cbn. apply bool_decide_eq_false_2. tauto. }
by rewrite bool_decide_eq_true_2.
Qed.
End Arrow.

Arguments next_cell : simpl never.
Arguments crosses : simpl never.

(** *** The arrow from the shot on *)

Section Launched.
Variables (r c d_r d_c : Z).
Implicit Types (s : WumpusWorld) (a : ArrowProjectile).

Lemma move_arrow now dx dy s : arrow (move now dx dy s) = arrow s.
Proof.
destruct (decide (game_state s = PLAYING)) as [Hst|Hst];
  [|by rewrite move_not_playing].
destruct (decide (in_grid s (target s dx dy))) as [Hin|Hin];
  [|by rewrite move_off_grid].
rewrite move_on_grid by done.
match goal with |- context [auto_win ?s0] =>
  destruct (auto_win_frame s0) as (_ & _ & _ & _ & _ & _ & _ & _ & _ & _ & _ & -> & _) end.
match goal with |- context [_check_danger ?s0] =>
  destruct (_check_danger_frame s0)
    as (_ & _ & _ & _ & _ & _ & _ & _ & _ & _ & -> & _) end.
match goal with |- context [score_visit ?n ?x ?y ?s0] =>
  destruct (score_visit_frame n s0 x y) as (_ & _ & _ & _ & _ & _ & _ & _ & -> & _) end.
done.
Qed.

Lemma grab_arrow now s : arrow (grab now s) = arrow s.
Proof.
unfold grab. destruct (negb _); [done|]. destruct (agent_pos s) as [x y].
destruct (bool_decide ((x, y) = gold s) && negb (has_gold s)); cbn.
- add_score_frame.
  match goal with |- arrow (if ?b then _ else _) = _ => destruct b end; cbn; done.
- match goal with |- arrow (if ?b then _ else _) = _ => destruct b end; done.
Qed.

(** A frame keeps a launched arrow launched, and an arrow has hit only
    when the monster is dead. *)
Lemma update_arrow_launched now s a :
  arrow s = Some a → launched r c d_r d_c a →
  (hit_wumpus a = true → wumpus_alive s = false) →
  ∃ a', arrow (update_arrow now s) = Some a' ∧ launched r c d_r d_c a'
    ∧ (hit_wumpus a' = true → wumpus_alive (update_arrow now s) = false).
Proof.
intros Ha Hl Hh.
destruct (done a) eqn:Hdone.
{ rewrite update_arrow_idle by eauto. by exists a. }
destruct Hl as (Hdr & Hdc & Hsp & Hfly & n & Hrow & Hcol).
specialize (Hfly Hdone). unfold launched.
destruct (crosses a) eqn:Hcross.
2:{ rewrite (update_arrow_progress now s a) by done. eexists. split; [done|].
    cbn. split_and!; try done. by exists n. }
assert (Hnext : ∃ m : nat, (next_cell a).1 = r + Z.of_nat m * d_r
                           ∧ (next_cell a).2 = c + Z.of_nat m * d_c).
{ exists (S n). unfold next_cell. cbn. rewrite Hrow, Hcol, Hdr, Hdc. lia. }
destruct (decide (wumpus_alive s = true ∧ next_cell a = wumpus s)) as [[Halive Hcell]|Hno].
- rewrite (update_arrow_hit now s a) by done.
  match goal with |- context [_add_score now 300 ?x ?y ?s0] =>
    pose proof (_add_score_frame now 300 x y s0)
      as (_ & _ & _ & _ & _ & _ & Hw & _ & _ & _ & _ & _ & Harrow & _)
  end.
  cbn in Harrow, Hw. eexists. split; [cbn; exact Harrow|].
  cbn. split_and!; done.
- destruct (decide (in_grid s (next_cell a))) as [Hin|Hout].
  + rewrite (update_arrow_fly now s a) by done. eexists. split; [done|].
    cbn. split_and!; done.
  + rewrite (update_arrow_miss now s a) by done. eexists. split; [done|].
    cbn. split_and!; done.
Qed.

(** No action of the game instance takes a launched arrow away. *)
Lemma step_launched now act s a :
  arrow_used s = true → arrow s = Some a → launched r c d_r d_c a →
  (hit_wumpus a = true → wumpus_alive s = false) →
  arrow_used (step now act s) = true
  ∧ ∃ a', arrow (step now act s) = Some a' ∧ launched r c d_r d_c a'
      ∧ (hit_wumpus a' = true → wumpus_alive (step now act s) = false).
Proof.
intros Hu Ha Hl Hh.
destruct (step_persists now act s)
  as (_ & _ & _ & _ & _ & _ & _ & Hused & Hdead & _).
split; [auto|].
assert (Hkeep : arrow (step now act s) = arrow s →
  ∃ a', arrow (step now act s) = Some a' ∧ launched r c d_r d_c a'
      ∧ (hit_wumpus a' = true → wumpus_alive (step now act s) = false)).
{ intros ->. exists a. auto. }
destruct act as [dx dy| | |dr' dc'| | | |]; simpl in *.
- apply Hkeep, move_arrow.
- apply Hkeep. unfold enter_aim_mode. by rewrite Hu.
- apply Hkeep, grab_arrow.
- apply Hkeep. unfold fire_arrow. by rewrite Hu.
- by apply Hkeep.
- by apply Hkeep.
- by apply Hkeep.
- by apply (update_arrow_launched now s a).
Qed.

Lemma run_launched tr s a :
  arrow_used s = true → arrow s = Some a → launched r c d_r d_c a →
  (hit_wumpus a = true → wumpus_alive s = false) →
  ∃ a', arrow (run tr s) = Some a' ∧ launched r c d_r d_c a'
    ∧ (hit_wumpus a' = true → wumpus_alive (run tr s) = false).
Proof.
revert s a. induction tr as [|[now act] tr IH]; intros s a Hu Ha Hl Hh; simpl.
{ by exists a. }
destruct (step_launched now act s a Hu Ha Hl Hh) as (Hu' & a' & Ha' & Hl' & Hh').
by apply (IH _ a').
Qed.
End Launched.

(** C3. One call of [update_arrow] on an arrow in flight adds [speed] to
    its progress.  If the sum stays below 1.0 nothing else changes.  If it
    reaches 1.0 the progress is 0 again and the arrow is one cell further in
    its direction; there, if the monster is alive and in that cell, the arrow
    is done and has hit, the monster is dead, for the rest of the game
    instance, the score is up by 300 and a popup of 300 stands at that cell;
    otherwise, if the cell is outside the grid, the arrow is done, with no
    change of score; otherwise the arrow flies on and only the arrow has
    changed.  Without an arrow, or with an arrow that is done,
    [update_arrow] changes nothing.  The arrow that [fire_arrow] creates
    stands on the agent's cell, with the direction fired, progress 0, the
    increment 0.18, not done and without a hit; through every later run of
    actions of the game instance it keeps that direction and that increment
    and lies a whole number of cells from the agent's cell along the line of
    fire; while it flies it has no hit, so leaving the grid resolves it as a
    miss, and it has a hit only when it is done and the monster is dead. *)
Theorem projectile_step now s :
  (∀ a, arrow s = Some a → done a = false →
     (crosses a = false →
        update_arrow now s
        = set_arrow (Some (Arrow (row a) (col a) (dr a) (dc a) (frac a + speed a)%float
                             (speed a) false (hit_wumpus a))) s)
     ∧ (crosses a = true →
        ∃ a', arrow (update_arrow now s) = Some a'
          ∧ frac a' = 0%float ∧ (row a', col a') = next_cell a
          ∧ dr a' = dr a ∧ dc a' = dc a ∧ speed a' = speed a
          ∧ (wumpus_alive s = true ∧ next_cell a = wumpus s →
             done a' = true ∧ hit_wumpus a' = true
             ∧ wumpus_alive (update_arrow now s) = false
             ∧ (∀ tr, wumpus_alive (run tr (update_arrow now s)) = false)
             ∧ score (update_arrow now s) = score s + 300
             ∧ popups (update_arrow now s)
               = popups s ++ [Popup (next_cell a).1 (next_cell a).2 300])
          ∧ (¬ (wumpus_alive s = true ∧ next_cell a = wumpus s) →
             ¬ in_grid s (next_cell a) →
             done a' = true ∧ hit_wumpus a' = hit_wumpus a
             ∧ wumpus_alive (update_arrow now s) = wumpus_alive s
             ∧ score (update_arrow now s) = score s
             ∧ popups (update_arrow now s) = popups s)
          ∧ (¬ (wumpus_alive s = true ∧ next_cell a = wumpus s) →
             in_grid s (next_cell a) →
             done a' = false ∧ update_arrow now s = set_arrow (Some a') s)))
  ∧ (arrow s = None ∨ (∃ a, arrow s = Some a ∧ done a = true) →
     update_arrow now s = s)
  ∧ (∀ nowf d_r d_c, arrow_used s = false →
     arrow (fire_arrow nowf d_r d_c s)
     = Some (Arrow (agent_pos s).1 (agent_pos s).2 d_r d_c 0%float
               0x1.70a3d70a3d70ap-3%float false false)
     ∧ ∀ tr, ∃ a, arrow (run tr (fire_arrow nowf d_r d_c s)) = Some a
         ∧ dr a = d_r ∧ dc a = d_c ∧ speed a = 0x1.70a3d70a3d70ap-3%float
         ∧ (∃ n : nat, row a = (agent_pos s).1 + Z.of_nat n * d_r
                       ∧ col a = (agent_pos s).2 + Z.of_nat n * d_c)
         ∧ (done a = false → hit_wumpus a = false)
         ∧ (hit_wumpus a = true →
            done a = true ∧ wumpus_alive (run tr (fire_arrow nowf d_r d_c s)) = false)).
Proof.
split; [|split; [apply update_arrow_idle|]].
2:{ intros nowf d_r d_c Hu.
    assert (Hfired : arrow (fire_arrow nowf d_r d_c s)
              = Some (Arrow (agent_pos s).1 (agent_pos s).2 d_r d_c 0%float
                        0x1.70a3d70a3d70ap-3%float false false)
            ∧ arrow_used (fire_arrow nowf d_r d_c s) = true).
    { unfold fire_arrow. rewrite Hu. cbn. destruct (agent_pos s) as [r c]. cbn.
      match goal with |- context [_add_score nowf (-50) ?x ?y ?s0] =>
        pose proof (_add_score_frame nowf (-50) x y s0)
          as (_ & _ & _ & _ & _ & _ & _ & Hused & _)
      end.
      cbn in Hused. by rewrite Hused. }
    destruct Hfired as [Hfired Hused]. split; [exact Hfired|]. intros tr.
    destruct (run_launched (agent_pos s).1 (agent_pos s).2 d_r d_c tr _ _ Hused Hfired)
      as (a & Ha & (Hdr & Hdc & Hsp & Hfly & Hline) & Hhit).
    { split_and!; try done. exists 0%nat. cbn. lia. }
    { done. }
    exists a. split_and!; try done.
    intros Hh. split; [|by apply Hhit].
    destruct (done a) eqn:Hd; [done|]. rewrite Hfly in Hh; done. }
intros a Ha Hdone. split; [by apply update_arrow_progress|]. intros Hcross.
destruct (decide (wumpus_alive s = true ∧ next_cell a = wumpus s)) as [[Halive Hcell]|Hno].
- rewrite (update_arrow_hit now s a) by done.
  match goal with |- context [_add_score now 300 ?r ?c ?s0] =>
    pose proof (_add_score_frame now 300 r c s0)
      as (_ & _ & _ & _ & _ & _ & Hw & _ & _ & _ & _ & _ & Harrow & _);
    pose proof (_add_score_score now 300 r c s0) as Hscore;
    pose proof (_add_score_popups now 300 r c s0) as Hpopups
  end.
  cbn in Hw, Harrow, Hscore, Hpopups.
  eexists. split; [cbn; exact Harrow|]. cbn.
  split_and!; try done; try (by intros []); try (by destruct (next_cell a)).
  intros _. split_and!; try done.
  intros tr.
  match goal with |- wumpus_alive (run tr ?s0) = false =>
    destruct (run_persists tr s0) as (_ & _ & _ & _ & _ & _ & _ & _ & Hdead & _) end.
  by apply Hdead.
- destruct (decide (in_grid s (next_cell a))) as [Hin|Hout].
  + rewrite (update_arrow_fly now s a) by done.
    eexists. split; [done|]. cbn.
    split_and!; try done; try (by intros []); by destruct (next_cell a).
  + rewrite (update_arrow_miss now s a) by done.
    eexists. split; [done|]. cbn.
    split_and!; try done; try (by intros []); by destruct (next_cell a).
Qed.

Lemma projectile_step_witness :
  (arrow sample_shot = Some (new_arrow 2 0 0 1)
   ∧ done (new_arrow 2 0 0 1) = false
   ∧ crosses (new_arrow 2 0 0 1) = false
   ∧ update_arrow "t5" sample_shot
     = set_arrow (Some (Arrow 2 0 0 1 (0 + speed_per_tick)%float speed_per_tick
                          false false)) sample_shot)
  ∧ (∃ a, arrow sample_shot_near = Some a
       ∧ done a = false
       ∧ crosses a = true
       ∧ wumpus_alive sample_shot_near = true
       ∧ next_cell a = wumpus sample_shot_near
       ∧ wumpus_alive (update_arrow "t6" sample_shot_near) = false
       ∧ score (update_arrow "t6" sample_shot_near) = score sample_shot_near + 300)
  ∧ (arrow_used sample_world = false
     ∧ arrow (fire_arrow "t4" 0 1 sample_world)
       = Some (Arrow (agent_pos sample_world).1 (agent_pos sample_world).2 0 1 0%float
                 0x1.70a3d70a3d70ap-3%float false false)).
Proof.
split; [|split].
- assert (H1 : arrow sample_shot = Some (new_arrow 2 0 0 1)) by (vm_compute; reflexivity).
  assert (H2 : done (new_arrow 2 0 0 1) = false) by reflexivity.
  assert (H3 : crosses (new_arrow 2 0 0 1) = false) by (vm_compute; reflexivity).
  split; [exact H1|]. split; [exact H2|]. split; [exact H3|].
  exact (proj1 (proj1 (projectile_step "t5" sample_shot) _ H1 H2) H3).
- eexists.
  assert (H1 : arrow sample_shot_near
               = Some (Arrow 2 1 0 1 0x1.cccccccccccccp-1%float speed_per_tick false false))
    by (vm_compute; reflexivity).
  split; [exact H1|].
  assert (H2 : crosses (Arrow 2 1 0 1 0x1.cccccccccccccp-1%float speed_per_tick false false)
               = true) by (vm_compute; reflexivity).
  assert (H3 : wumpus_alive sample_shot_near = true) by (vm_compute; reflexivity).
  assert (H4 : next_cell (Arrow 2 1 0 1 0x1.cccccccccccccp-1%float speed_per_tick false false)
               = wumpus sample_shot_near) by (vm_compute; reflexivity).
  split; [reflexivity|]. split; [exact H2|]. split; [exact H3|]. split; [exact H4|].
  destruct (proj2 (proj1 (projectile_step "t6" sample_shot_near) _ H1 eq_refl) H2)
    as (a' & _ & _ & _ & _ & _ & _ & Hhit & _).
  destruct (Hhit (conj H3 H4)) as (_ & _ & Hdead & _ & Hscore & _).
  split; [exact Hdead|exact Hscore].
- split; [reflexivity|].
  exact (proj1 (proj2 (proj2 (projectile_step "t4" sample_world)) "t4" 0 1 eq_refl)).
Defined.

(** The whole shot on the sample board: two safe steps (+10 each), the
    arrow (-50), and on the twelfth frame the kill (+300); a thirteenth
    frame changes nothing. *)
Example shot_scenario :
  score sample_shot = -30
  ∧ score (update_arrow "t6" sample_shot_near) = 270
  ∧ wumpus_alive (update_arrow "t6" sample_shot_near) = false
  ∧ update_arrow "t7" (update_arrow "t6" sample_shot_near)
    = update_arrow "t6" sample_shot_near.
Proof. split_and!; vm_compute; reflexivity. Qed.

(** ** Firing *)

Section Fire.
Variable now : string.
Implicit Types s : WumpusWorld.

Lemma fire_arrow_used dr dc s : arrow_used s = true → fire_arrow now dr dc s = s.
Proof. intros Hu. unfold fire_arrow. by rewrite Hu. Qed.

Lemma fire_arrow_fresh dr dc s :
  arrow_used s = false →
  score (fire_arrow now dr dc s) = score s - 50
  ∧ arrow_used (fire_arrow now dr dc s) = true
  ∧ game_state (fire_arrow now dr dc s) = PLAYING
  ∧ arrow (fire_arrow now dr dc s)
    = Some (new_arrow (agent_pos s).1 (agent_pos s).2 dr dc)
  ∧ popups (fire_arrow now dr dc s)
    = popups s ++ [Popup (agent_pos s).1 (agent_pos s).2 (-50)].
Proof.
intros Hu. unfold fire_arrow. rewrite Hu. cbn. destruct (agent_pos s) as [r c]. cbn.
add_score_frame. cbn in *. split_and!; try done; lia.
Qed.

Lemma move_score dx dy s :
  score (move now dx dy s) = score s ∨ score (move now dx dy s) = score s + 10.
Proof.
destruct (decide (game_state s = PLAYING)) as [Hst|Hst];
  [|left; by rewrite move_not_playing].
destruct (decide (in_grid s (target s dx dy))) as [Hin|Hin];
  [|left; by rewrite move_off_grid].
destruct (decide (target s dx dy ∈ scored_cells s)) as [Hold|Hnew];
  [left; by apply move_bonus_withheld|].
destruct (decide (deadly s (target s dx dy))) as [Hd|Hsafe].
- left. destruct (move_score_on_grid now dx dy s Hst Hin) as [-> _].
  destruct (target s dx dy) as [nx ny]. cbn [fst snd].
  rewrite score_visit_withheld; [done|]. by left.
- right. by apply move_bonus_awarded.
Qed.

Lemma grab_score s :
  score (grab now s) = score s ∨ score (grab now s) = score s + 1000.
Proof.
unfold grab. destruct (negb _); [by left|]. destruct (agent_pos s) as [r c].
destruct (bool_decide ((r, c) = gold s) && negb (has_gold s)); cbn.
- right. add_score_frame.
  match goal with |- score (if ?b then _ else _) = _ => destruct b end; cbn; done.
- left. match goal with |- score (if ?b then _ else _) = _ => destruct b end; done.
Qed.

Lemma update_arrow_score s :
  score (update_arrow now s) = score s ∨ score (update_arrow now s) = score s + 300.
Proof.
unfold update_arrow. destruct (arrow s) as [a|]; [|by left].
destruct (done a); [by left|].
destruct (1 <=? frac a + speed a)%float; [|by left].
destruct (wumpus_alive s && _).
- right. cbn. add_score_frame. done.
- left. by destruct (negb _).
Qed.

(** Only the shot takes 50 points, and it takes them from a game whose
    arrow is unused. *)
Lemma step_score a s :
  score (step now a s) = score s - 50 →
  arrow_used s = false ∧ arrow_used (step now a s) = true.
Proof.
destruct a as [dx dy| | |dr dc| | | |]; simpl; intros Hscore.
- destruct (move_score dx dy s); lia.
- unfold enter_aim_mode in Hscore. destruct (_ || _); cbn in Hscore; lia.
- destruct (grab_score s); lia.
- destruct (arrow_used s) eqn:Hu.
  + rewrite fire_arrow_used in Hscore by done. lia.
  + split; [done|]. by apply fire_arrow_fresh.
- cbn in Hscore. lia.
- cbn in Hscore. lia.
- cbn in Hscore. lia.
- destruct (update_arrow_score s); lia.
Qed.
End Fire.

Lemma fire_charges_used tr s : arrow_used s = true → fire_charges tr s = 0%nat.
Proof.
revert s. induction tr as [|[now a] tr IH]; intros s Hu; simpl; [done|].
rewrite IH.
- case_bool_decide as Hscore; [|done]. apply step_score in Hscore as [? _]. congruence.
- destruct (step_persists now a s) as (_ & _ & _ & _ & _ & _ & _ & Hused & _). auto.
Qed.

Lemma fire_charges_once tr s : (fire_charges tr s ≤ 1)%nat.
Proof.
revert s. induction tr as [|[now a] tr IH]; intros s; simpl; [lia|].
case_bool_decide as Hscore.
- apply step_score in Hscore as [_ Hused]. rewrite fire_charges_used by done. lia.
- specialize (IH (step now a s)). lia.
Qed.

(** C4. A shot from a game whose arrow is unused takes exactly 50 points
    and sets [arrow_used] at once, while the arrow it creates is not yet
    done; with [arrow_used] set, [fire_arrow] changes nothing; no action of
    the game instance resets [arrow_used]; so over any sequence of actions
    of a game instance the 50 points are taken at most once.  What
    [update_arrow] adds later is 0 or 300, whether the arrow hits or not:
    nothing is given back. *)
Theorem fire_cost_once now dr dc s :
  (arrow_used s = false →
   score (fire_arrow now dr dc s) = score s - 50
   ∧ arrow_used (fire_arrow now dr dc s) = true
   ∧ ∃ a, arrow (fire_arrow now dr dc s) = Some a ∧ done a = false)
  ∧ (arrow_used s = true → fire_arrow now dr dc s = s)
  ∧ (∀ tr, arrow_used s = true → arrow_used (run tr s) = true)
  ∧ (∀ tr, arrow_used s = true →
     ∀ now' dr' dc', fire_arrow now' dr' dc' (run tr s) = run tr s)
  ∧ (∀ tr, (fire_charges tr s ≤ 1)%nat)
  ∧ (∀ tr, fire_charges tr (fire_arrow now dr dc s) = 0%nat)
  ∧ (∀ now', score (update_arrow now' s) = score s
             ∨ score (update_arrow now' s) = score s + 300).
Proof.
assert (Hlatch : ∀ tr s0, arrow_used s0 = true → arrow_used (run tr s0) = true).
{ intros tr s0 Hu.
  destruct (run_persists tr s0) as (_ & _ & _ & _ & _ & _ & _ & Hused & _). auto. }
split_and!.
- intros Hu. destruct (fire_arrow_fresh now dr dc s Hu) as (Hsc & Hused & _ & Harrow & _).
  split; [done|]. split; [done|]. by eexists.
- apply fire_arrow_used.
- intros tr. apply Hlatch.
- intros tr Hu now' dr' dc'. apply fire_arrow_used. by apply Hlatch.
- intros tr. apply fire_charges_once.
- intros tr. apply fire_charges_used. destruct (arrow_used s) eqn:Hu.
  + by rewrite fire_arrow_used.
  + by apply fire_arrow_fresh.
- intros now'. apply update_arrow_score.
Qed.

Lemma fire_cost_once_witness :
  arrow_used sample_world = false
  ∧ score (fire_arrow "12:00:05" 0 1 sample_world) = score sample_world - 50
  ∧ arrow_used (fire_arrow "12:00:05" 0 1 sample_world) = true
  ∧ (∃ a, arrow (fire_arrow "12:00:05" 0 1 sample_world) = Some a ∧ done a = false)
  ∧ arrow_used sample_shot = true
  ∧ fire_arrow "12:00:09" 1 0 sample_shot = sample_shot.
Proof.
split; [reflexivity|].
destruct (proj1 (fire_cost_once "12:00:05" 0 1 sample_world) eq_refl) as (H1 & H2 & H3).
split; [exact H1|]. split; [exact H2|]. split; [exact H3|].
assert (Hu : arrow_used sample_shot = true) by (vm_compute; reflexivity).
split; [exact Hu|].
exact (proj1 (proj2 (fire_cost_once "12:00:09" 1 0 sample_shot)) Hu).
Defined.

(** ** Actions outside their state *)

Lemma grab_not_playing now s : game_state s ≠ PLAYING → grab now s = s.
Proof. intros Hst. unfold grab. by rewrite bool_decide_eq_false_2. Qed.

Lemma enter_aim_mode_ignored s :
  arrow_used s = true ∨ game_state s ≠ PLAYING → enter_aim_mode s = s.
Proof.
intros [Hu|Hst]; unfold enter_aim_mode.
- by rewrite Hu.
- rewrite bool_decide_eq_false_2 by done. by rewrite orb_true_r.
Qed.

Lemma on_keydown_fire st k dr dc :
  on_keydown st k = Some (KDo (Fire dr dc)) → st = AIM.
Proof. destruct st, k; simpl; congruence. Qed.

(** C7, as the code has it.  [fire_arrow] with the arrow used, [move] and
    [grab] outside the Playing state, and [enter_aim_mode] with the arrow
    used or outside the Playing state change nothing.  [fire_arrow] does not
    look at the game state; that a shot is fired in the Aiming state only is
    the doing of the key handler, which calls [fire_arrow] in no other
    state. *)
Theorem illegal_actions_ignored now s :
  (∀ dr dc, arrow_used s = true → fire_arrow now dr dc s = s)
  ∧ (∀ dx dy, game_state s ≠ PLAYING → move now dx dy s = s)
  ∧ (game_state s ≠ PLAYING → grab now s = s)
  ∧ (arrow_used s = true ∨ game_state s ≠ PLAYING → enter_aim_mode s = s)
  ∧ (∀ k dr dc, on_keydown (game_state s) k = Some (KDo (Fire dr dc)) →
     game_state s = AIM).
Proof.
split_and!.
- intros dr dc. apply fire_arrow_used.
- intros dx dy. apply move_not_playing.
- apply grab_not_playing.
- apply enter_aim_mode_ignored.
- intros k dr dc. apply on_keydown_fire.
Qed.

Lemma illegal_actions_ignored_witness :
  arrow_used sample_shot = true
  ∧ fire_arrow "12:00:09" 1 0 sample_shot = sample_shot
  ∧ game_state (set_game_state PAUSED sample_world) ≠ PLAYING
  ∧ move "12:00:09" 0 1 (set_game_state PAUSED sample_world)
    = set_game_state PAUSED sample_world
  ∧ grab "12:00:09" (set_game_state PAUSED sample_world)
    = set_game_state PAUSED sample_world.
Proof.
assert (Hu : arrow_used sample_shot = true) by (vm_compute; reflexivity).
assert (Hst : game_state (set_game_state PAUSED sample_world) ≠ PLAYING) by discriminate.
destruct (illegal_actions_ignored "12:00:09" sample_shot) as (Hfire & _).
destruct (illegal_actions_ignored "12:00:09" (set_game_state PAUSED sample_world))
  as (_ & Hmove & Hgrab & _).
split; [exact Hu|]. split; [exact (Hfire 1 0 Hu)|]. split; [exact Hst|].
split; [exact (Hmove 0 1 Hst)|exact (Hgrab Hst)].
Defined.

(** C7 as stated fails: in the Playing state, with the arrow unused,
    [fire_arrow] fires. *)
Lemma fire_arrow_outside_aim :
  game_state sample_world ≠ AIM
  ∧ fire_arrow "12:00:05" 0 1 sample_world ≠ sample_world.
Proof.
split; [discriminate|].
intros Heq. apply (f_equal arrow_used) in Heq. vm_compute in Heq. discriminate.
Qed.

(** ** Grabbing *)

(** C10. In the Playing state, with the gold in hand and the agent on
    (0,0), [grab] wins the game: the state is Won and, the message apart,
    nothing else changes; the score in particular stays as it is. *)
Theorem grab_exits_at_start now s :
  game_state s = PLAYING → has_gold s = true → agent_pos s = (0, 0) →
  game_state (grab now s) = WIN
  ∧ score (grab now s) = score s
  ∧ grab now s = set_message "Escaped with the gold!" (set_game_state WIN s).
Proof.
intros Hst Hgold Hpos.
assert (grab now s = set_message "Escaped with the gold!" (set_game_state WIN s)) as ->.
{ unfold grab. rewrite Hst, Hpos, Hgold.
  rewrite (bool_decide_eq_true_2 (PLAYING = PLAYING)) by done. cbn.
  rewrite andb_false_r, Hgold.
  by rewrite (bool_decide_eq_true_2 ((0, 0) = (0, 0))) by done. }
done.
Qed.

Lemma grab_exits_at_start_witness :
  game_state sample_world_with_gold = PLAYING
  ∧ has_gold sample_world_with_gold = true
  ∧ agent_pos sample_world_with_gold = (0, 0)
  ∧ game_state (grab "12:30:00" sample_world_with_gold) = WIN
  ∧ score (grab "12:30:00" sample_world_with_gold) = score sample_world_with_gold
  ∧ grab "12:30:00" sample_world_with_gold
    = set_message "Escaped with the gold!" (set_game_state WIN sample_world_with_gold).
Proof.
split; [reflexivity|]. split; [reflexivity|]. split; [reflexivity|].
exact (grab_exits_at_start "12:30:00" sample_world_with_gold eq_refl eq_refl eq_refl).
Defined.

(** ** Percepts *)

Section Percepts.
Variable s : WumpusWorld.

Lemma adjacent_elem x y c :
  c ∈ adjacent s (x, y) ↔
    (0 < x ∧ c = (x - 1, y)) ∨ (x < grid_size s - 1 ∧ c = (x + 1, y))
    ∨ (0 < y ∧ c = (x, y - 1)) ∨ (y < grid_size s - 1 ∧ c = (x, y + 1)).
Proof.
unfold adjacent.
repeat case_bool_decide; cbn;
  rewrite ?elem_of_cons, ?elem_of_nil; intuition idtac.
Qed.

(** For an agent in the grid, [adjacent] lists the cells of the grid next
    to it in its row or column. *)
Lemma adjacent_spec c :
  in_grid s (agent_pos s) →
  c ∈ adjacent s (agent_pos s) ↔ in_grid s c ∧ orth_adjacent (agent_pos s) c.
Proof.
destruct (agent_pos s) as [x y], c as [a b]. unfold in_grid, orth_adjacent.
intros Hin. rewrite adjacent_elem. cbn in *. split.
- intros [[? [= -> ->]]|[[? [= -> ->]]|[[? [= -> ->]]|[? [= -> ->]]]]]; lia.
- intros [Hc Hadj].
  assert (a = x - 1 ∧ b = y ∨ a = x + 1 ∧ b = y
          ∨ a = x ∧ b = y - 1 ∨ a = x ∧ b = y + 1) as Hcases by lia.
  destruct Hcases as [[-> ->]|[[-> ->]|[[-> ->]|[-> ->]]]].
  + left. split; [lia|done].
  + right; left. split; [lia|done].
  + right; right; left. split; [lia|done].
  + right; right; right. split; [lia|done].
Qed.

Lemma percepts_elem p :
  p ∈ percepts s ↔
    (p = Breeze ∧ ∃ pit, pit ∈ pits s ∧ pit ∈ adjacent s (agent_pos s))
    ∨ (p = Stench ∧ wumpus_alive s = true ∧ wumpus s ∈ adjacent s (agent_pos s))
    ∨ (p = Glitter ∧ agent_pos s = gold s ∧ has_gold s = false).
Proof.
unfold percepts.
assert (Hb : existsb (λ pit, bool_decide (pit ∈ adjacent s (agent_pos s))) (pits s) = true
             ↔ ∃ pit, pit ∈ pits s ∧ pit ∈ adjacent s (agent_pos s)).
{ rewrite existsb_exists. split; intros (pit & Hin & Hadj); exists pit.
  - split; [by apply list_elem_of_In|by apply bool_decide_eq_true in Hadj].
  - split; [by apply list_elem_of_In|by apply bool_decide_eq_true]. }
assert (Hs : wumpus_alive s && bool_decide (wumpus s ∈ adjacent s (agent_pos s)) = true
             ↔ wumpus_alive s = true ∧ wumpus s ∈ adjacent s (agent_pos s)).
{ by rewrite andb_true_iff, bool_decide_eq_true. }
assert (Hg : bool_decide (agent_pos s = gold s) && negb (has_gold s) = true
             ↔ agent_pos s = gold s ∧ has_gold s = false).
{ by rewrite andb_true_iff, bool_decide_eq_true, negb_true_iff. }
destruct (existsb _ _), (wumpus_alive s && _), (bool_decide _ && negb _); cbn;
  rewrite ?elem_of_cons, ?elem_of_nil; destruct p;
  intuition (try discriminate; try done).
Qed.
End Percepts.

(** C9. [percepts] is a function of the state: with the agent in the grid,
    Breeze is reported exactly when a pit lies on a cell of the grid next to
    the agent in its row or column, Stench exactly when the monster is alive
    and on such a cell, Glitter exactly when the agent is on the gold's cell
    and has not collected the gold; every cell [adjacent] lists lies in the
    grid; and two states that agree on the grid size, the agent, the pits,
    the monster and the gold report the same percepts. *)
Theorem percepts_spec s :
  in_grid s (agent_pos s) →
  (Breeze ∈ percepts s ↔
     ∃ c, in_grid s c ∧ orth_adjacent (agent_pos s) c ∧ c ∈ pits s)
  ∧ (Stench ∈ percepts s ↔
     wumpus_alive s = true ∧ in_grid s (wumpus s)
     ∧ orth_adjacent (agent_pos s) (wumpus s))
  ∧ (Glitter ∈ percepts s ↔ agent_pos s = gold s ∧ has_gold s = false)
  ∧ (∀ c, c ∈ adjacent s (agent_pos s) → in_grid s c)
  ∧ (∀ s', grid_size s' = grid_size s → agent_pos s' = agent_pos s →
     pits s' = pits s → wumpus s' = wumpus s → wumpus_alive s' = wumpus_alive s →
     gold s' = gold s → has_gold s' = has_gold s → percepts s' = percepts s).
Proof.
intros Hin. split_and!.
- rewrite percepts_elem. split.
  + intros [(_ & pit & Hpit & Hadj)|[[? _]|[? _]]]; [|done..].
    apply adjacent_spec in Hadj as [? ?]; [|done]. by exists pit.
  + intros (c & Hc & Hadj & Hpit). left. split; [done|]. exists c. split; [done|].
    by apply adjacent_spec.
- rewrite percepts_elem. split.
  + intros [[? _]|[(_ & Halive & Hadj)|[? _]]]; [done| |done].
    apply adjacent_spec in Hadj as [? ?]; done.
  + intros (Halive & Hc & Hadj). right; left. split; [done|]. split; [done|].
    by apply adjacent_spec.
- rewrite percepts_elem. split.
  + intros [[? _]|[[? _]|(_ & ? & ?)]]; done.
  + intros [? ?]. by right; right.
- intros c Hc. by apply adjacent_spec in Hc as [? _].
- intros s' Hgs Hpos Hpits Hw Hwa Hg Hhg. unfold percepts, adjacent.
  by rewrite Hgs, Hpos, Hpits, Hw, Hwa, Hg, Hhg.
Qed.

Lemma percepts_spec_witness :
  in_grid sample_world (agent_pos sample_world)
  ∧ (Breeze ∈ percepts sample_world ↔
     ∃ c, in_grid sample_world c ∧ orth_adjacent (agent_pos sample_world) c
          ∧ c ∈ pits sample_world)
  ∧ (Stench ∈ percepts sample_world ↔
     wumpus_alive sample_world = true ∧ in_grid sample_world (wumpus sample_world)
     ∧ orth_adjacent (agent_pos sample_world) (wumpus sample_world))
  ∧ (Glitter ∈ percepts sample_world ↔
     agent_pos sample_world = gold sample_world ∧ has_gold sample_world = false)
  ∧ (∀ c, c ∈ adjacent sample_world (agent_pos sample_world) → in_grid sample_world c)
  ∧ (∀ s', grid_size s' = grid_size sample_world →
     agent_pos s' = agent_pos sample_world → pits s' = pits sample_world →
     wumpus s' = wumpus sample_world → wumpus_alive s' = wumpus_alive sample_world →
     gold s' = gold sample_world → has_gold s' = has_gold sample_world →
     percepts s' = percepts sample_world).
Proof.
assert (Hin : in_grid sample_world (agent_pos sample_world)).
{ unfold in_grid. cbn. lia. }
split; [exact Hin|]. exact (percepts_spec sample_world Hin).
Defined.

(** On the sample board nothing is perceived at the start; one step down,
    next to the pit at (1,1), there is a breeze; at (2,1), next to the
    monster and to that pit, a breeze and a stench, and the stench is gone
    once the monster is dead. *)
Example sample_percepts :
  percepts sample_world = []
  ∧ percepts (move "t1" 1 0 sample_world) = [Breeze]
  ∧ percepts (set_agent_pos (2, 1) sample_world) = [Breeze; Stench]
  ∧ percepts (set_wumpus_alive false (set_agent_pos (2, 1) sample_world)) = [Breeze]
  ∧ percepts (set_agent_pos (1, 3) sample_world) = [Breeze; Glitter].
Proof. split_and!; vm_compute; reflexivity. Qed.

(** The agent of a game in progress is in the grid: it starts on (0,0) and
    [move] is the only action that changes its position. *)
Lemma step_agent_in_grid now a s :
  in_grid s (agent_pos s) → in_grid (step now a s) (agent_pos (step now a s)).
Proof.
intros Hin.
assert (Hsame : ∀ s', grid_size s' = grid_size s → agent_pos s' = agent_pos s →
                in_grid s' (agent_pos s')).
{ intros s' Hg Hp. unfold in_grid in *. by rewrite Hg, Hp. }
destruct a as [dx dy| | |dr dc| | | |]; simpl.
- destruct (decide (game_state s = PLAYING)) as [Hst|Hst];
    [|by rewrite move_not_playing].
  destruct (decide (in_grid s (target s dx dy))) as [Ht|Ht];
    [|by rewrite move_off_grid].
  rewrite move_agent_pos by done.
  destruct (move_persists now dx dy s) as (Hg & _).
  unfold in_grid in *. by rewrite Hg.
- apply Hsame; unfold enter_aim_mode; by destruct (_ || _).
- apply Hsame; [by destruct (grab_persists now s)|].
  unfold grab. destruct (negb _); [done|]. destruct (agent_pos s) as [r c] eqn:Hpos.
  destruct (bool_decide ((r, c) = gold s) && negb (has_gold s)); cbn.
  + add_score_frame.
    match goal with |- agent_pos (if ?b then _ else _) = _ => destruct b end;
      cbn in *; congruence.
  + match goal with |- agent_pos (if ?b then _ else _) = _ => destruct b end; done.
- apply Hsame; [by destruct (fire_arrow_persists now dr dc s)|].
  unfold fire_arrow. destruct (arrow_used s); [done|]. cbn.
  destruct (agent_pos s) as [r c] eqn:Hpos. cbn. add_score_frame. cbn in *. congruence.
- apply (Hsame (cancel_aim s)); reflexivity.
- apply (Hsame (set_game_state PAUSED s)); reflexivity.
- apply (Hsame (set_game_state PLAYING s)); reflexivity.
- apply Hsame; [by destruct (update_arrow_persists now s)|].
  unfold update_arrow. destruct (arrow s) as [a|]; [|done].
  destruct (done a); [done|]. destruct (1 <=? frac a + speed a)%float; [|done].
  destruct (wumpus_alive s && _).
  + cbn. add_score_frame. done.
  + by destruct (negb _).
Qed.

Lemma run_agent_in_grid tr s :
  in_grid s (agent_pos s) → in_grid (run tr s) (agent_pos (run tr s)).
Proof.
revert s. induction tr as [|[now a] tr IH]; intros s Hin; simpl; [done|].
by apply IH, step_agent_in_grid.
Qed.

Lemma new_game_agent_in_grid rnd rounds s0 k s k' :
  start_game rnd rounds s0 k = Ret s k' ∨ restart rnd rounds s0 k = Ret s k' →
  in_grid s (agent_pos s).
Proof.
intros [Hnew|Hnew];
  apply bind_ret_inv in Hnew as (s1 & k1 & Hinit & [= <- <-]);
  apply _init_board_ret in Hinit as (w & g & ps & -> & _ & _ & Hall);
  apply Forall_cons in Hall as [Hw _]; unfold in_grid; cbn in *; lia.
Qed.

(** ** Termination of world generation *)

Section Pigeonhole.
Variable gs : Z.

Lemma grid_cells_elem c : c ∈ grid_cells gs ↔ 0 ≤ c.1 < gs ∧ 0 ≤ c.2 < gs.
Proof.
unfold grid_cells. rewrite list_elem_of_cprod, !elem_of_seqZ. lia.
Qed.

Lemma grid_cells_NoDup : NoDup (grid_cells gs).
Proof.
unfold grid_cells, cprod, list_cprod. apply NoDup_bind.
- intros x1 x2 [a b] _ _ (? & [= -> ->] & _)%list_elem_of_fmap
    (? & [= -> _] & _)%list_elem_of_fmap. done.
- intros x _. apply NoDup_fmap_2; [|apply NoDup_seqZ]. by intros ?? [= ->].
- apply NoDup_seqZ.
Qed.

Lemma grid_cells_length : 0 ≤ gs → Z.of_nat (length (grid_cells gs)) = gs * gs.
Proof.
intros Hgs. unfold grid_cells. rewrite list_cprod_list_prod, length_prod, length_seqZ. lia.
Qed.

(** Distinct cells of the grid are at most [gs * gs] many. *)
Lemma distinct_cells_bound (l : list (Z * Z)) :
  NoDup l → Forall (λ c, 0 ≤ c.1 < gs ∧ 0 ≤ c.2 < gs) l →
  Z.of_nat (length l) ≤ gs * gs.
Proof.
intros Hnd Hall.
destruct (decide (0 ≤ gs)) as [Hgs|Hgs].
- rewrite <-grid_cells_length by done. apply inj_le, submseteq_length.
  apply NoDup_submseteq; [done|]. intros c Hc. apply grid_cells_elem.
  by apply (proj1 (Forall_forall _ _) Hall).
- destruct l as [|c l]; [simpl; nia|]. apply Forall_cons in Hall as [? _]. lia.
Qed.

(** A list shorter than the grid leaves a cell of the grid free. *)
Lemma free_cell (exclude : list (Z * Z)) :
  0 ≤ gs → Z.of_nat (length exclude) < gs * gs →
  ∃ c, c ∈ grid_cells gs ∧ c ∉ exclude.
Proof.
intros Hgs Hlen.
destruct (decide (Forall (λ c, c ∈ exclude) (grid_cells gs))) as [Hall|Hex].
- exfalso.
  pose proof (submseteq_length (grid_cells gs) exclude) as Hle.
  rewrite <-grid_cells_length in Hlen by done.
  apply Nat2Z.inj_lt in Hlen. apply Nat.lt_nge in Hlen. apply Hlen, Hle.
  apply NoDup_submseteq; [apply grid_cells_NoDup|].
  by apply Forall_forall.
- apply not_Forall_Exists in Hex; [|apply _].
  apply Exists_exists in Hex as (c & Hc & Hfree). by exists c.
Qed.
End Pigeonhole.

Section Termination.
Variable rnd : nat → Z.
Implicit Types (k i j d r : nat) (exclude : list (Z * Z)).

Lemma randint_grid gs k :
  1 ≤ gs → randint rnd 0 (gs - 1) k = Ret (rnd k `mod` gs) (S k).
Proof.
intros Hgs. unfold randint. rewrite bool_decide_eq_false_2 by lia.
by replace (gs - 1 - 0 + 1) with gs by lia.
Qed.

(** One round of the loop of [_rand]. *)
Lemma _rand_round r gs exclude k :
  1 ≤ gs →
  _rand rnd (S r) gs exclude k
  = if bool_decide (drawn rnd gs k ∉ exclude) then Ret (drawn rnd gs k) (S (S k))
    else _rand rnd r gs exclude (S (S k)).
Proof.
intros Hgs. simpl.
rewrite (bind_ret _ _ _ _ _ (randint_grid gs k Hgs)).
rewrite (bind_ret _ _ _ _ _ (randint_grid gs (S k) Hgs)).
unfold drawn. by case_bool_decide.
Qed.

(** With at least one cell, [_rand] raises nothing. *)
Lemma _rand_no_raise r gs exclude k : 1 ≤ gs → _rand rnd r gs exclude k ≠ Raise.
Proof.
intros Hgs. revert k. induction r as [|r IH]; intros k; [done|].
rewrite _rand_round by done. by case_bool_decide.
Qed.

Lemma place_pits_no_raise r gs w g n pits k :
  1 ≤ gs → place_pits rnd r gs w g n pits k ≠ Raise.
Proof.
intros Hgs. revert pits k. induction n as [|n IH]; intros pits k; simpl; [done|].
unfold mbind, Gen_bind.
pose proof (_rand_no_raise r gs ([(0, 0); w; g] ++ pits) k Hgs) as Hr.
destruct (_rand rnd r gs _ k) as [p k1| |]; [apply IH|done|done].
Qed.

Lemma _init_board_no_raise r s k : 1 ≤ grid_size s → _init_board rnd r s k ≠ Raise.
Proof.
intros Hgs. unfold _init_board, mbind, Gen_bind.
pose proof (_rand_no_raise r (grid_size s) [(0, 0)] k Hgs) as Hw.
destruct (_rand rnd r _ [(0, 0)] k) as [w k1| |]; [|done..].
pose proof (_rand_no_raise r (grid_size s) [(0, 0); w] k1 Hgs) as Hg.
destruct (_rand rnd r _ [(0, 0); w] k1) as [g k2| |]; [|done..].
pose proof (place_pits_no_raise r (grid_size s) w g (Z.to_nat (num_pits s)) [] k2 Hgs) as Hp.
by destruct (place_pits rnd r _ w g _ [] k2) as [ps k3| |].
Qed.

(** A world that is returned has room for its entities. *)
Lemma _init_board_needs_room r s k s' k' :
  num_pits s = grid_size s → _init_board rnd r s k = Ret s' k' →
  grid_size s + 3 ≤ grid_size s * grid_size s.
Proof.
intros Hnum Hret.
apply _init_board_ret in Hret as (w & g & ps & _ & Hnd & Hlen & Hall).
assert (1 ≤ grid_size s) as Hgs by (apply Forall_cons in Hall as [? _]; lia).
pose proof (distinct_cells_bound (grid_size s) ((0, 0) :: w :: g :: ps) Hnd) as Hbound.
simpl in Hbound. rewrite Hlen, Hnum in Hbound.
assert (Forall (λ c, 0 ≤ c.1 < grid_size s ∧ 0 ≤ c.2 < grid_size s)
          ((0, 0) :: w :: g :: ps)) as Hall'.
{ constructor; [simpl; lia|done]. }
specialize (Hbound Hall'). lia.
Qed.

(** If the round [d] rounds from now draws a free cell, [_rand] returns by
    then, given enough rounds. *)
Lemma _rand_finds gs exclude : 1 ≤ gs → ∀ d k,
  drawn rnd gs (k + 2 * d) ∉ exclude →
  ∃ r0 c j, ∀ r, (r0 ≤ r)%nat → _rand rnd r gs exclude k = Ret c (k + 2 * S j).
Proof.
intros Hgs. induction d as [|d IH]; intros k Hfree.
- exists 1%nat, (drawn rnd gs k), 0%nat. intros [|r] Hr; [lia|].
  rewrite _rand_round by done. replace (k + 2 * 0)%nat with k in Hfree by lia.
  rewrite bool_decide_eq_true_2 by done. f_equal. lia.
- destruct (decide (drawn rnd gs k ∉ exclude)) as [Hnow|Hnot].
  + exists 1%nat, (drawn rnd gs k), 0%nat. intros [|r] Hr; [lia|].
    rewrite _rand_round by done. rewrite bool_decide_eq_true_2 by done. f_equal. lia.
  + destruct (IH (S (S k))) as (r0 & c & j & Hret).
    { by replace (S (S k) + 2 * d)%nat with (k + 2 * S d)%nat by lia. }
    exists (S r0), c, (S j). intros [|r] Hr; [lia|].
    rewrite _rand_round by done. rewrite bool_decide_eq_false_2 by done.
    rewrite Hret by lia. f_equal. lia.
Qed.

Lemma _rand_terminates gs exclude k0 :
  1 ≤ gs → fair rnd gs k0 → Z.of_nat (length exclude) < gs * gs →
  ∀ i, ∃ r0 c i', ∀ r, (r0 ≤ r)%nat →
    _rand rnd r gs exclude (k0 + 2 * i)%nat = Ret c (k0 + 2 * i')%nat.
Proof.
intros Hgs Hfair Hlen i.
destruct (free_cell gs exclude) as (c & Hc & Hfree); [lia|done|].
destruct (Hfair i c Hc) as (j & Hij & Hdrawn).
destruct (_rand_finds gs exclude Hgs (j - i)%nat (k0 + 2 * i)%nat)
  as (r0 & c' & j' & Hret).
{ replace (k0 + 2 * i + 2 * (j - i))%nat with (k0 + 2 * j)%nat by lia.
  by rewrite Hdrawn. }
exists r0, c', (i + S j')%nat. intros r Hr. rewrite Hret by done. f_equal. lia.
Qed.

Lemma place_pits_terminates gs w g k0 :
  1 ≤ gs → fair rnd gs k0 → ∀ n pits i,
  3 + Z.of_nat (length pits) + Z.of_nat n ≤ gs * gs →
  ∃ r0 ps i', ∀ r, (r0 ≤ r)%nat →
    place_pits rnd r gs w g n pits (k0 + 2 * i)%nat = Ret ps (k0 + 2 * i')%nat.
Proof.
intros Hgs Hfair. induction n as [|n IH]; intros pits i Hroom.
- exists 0%nat, pits, i. done.
- destruct (_rand_terminates gs ([(0, 0); w; g] ++ pits) k0 Hgs Hfair) with (i := i)
    as (r1 & p & i1 & Hrand).
  { simpl. lia. }
  destruct (IH (pits ++ [p]) i1) as (r2 & ps & i2 & Hrest).
  { rewrite length_app. simpl. lia. }
  exists (r1 `max` r2)%nat, ps, i2. intros r Hr. simpl.
  rewrite (bind_ret _ _ _ _ _ (Hrand r ltac:(lia))). apply Hrest. lia.
Qed.

Lemma _init_board_terminates s k :
  3 ≤ grid_size s → num_pits s = grid_size s → fair rnd (grid_size s) k →
  ∃ r0 s' k', ∀ r, (r0 ≤ r)%nat → _init_board rnd r s k = Ret s' k'.
Proof.
intros Hgs Hnum Hfair.
assert (1 ≤ grid_size s) as Hgs1 by lia.
destruct (_rand_terminates (grid_size s) [(0, 0)] k Hgs1 Hfair) with (i := 0%nat)
  as (r1 & w & i1 & Hw).
{ simpl. nia. }
destruct (_rand_terminates (grid_size s) [(0, 0); w] k Hgs1 Hfair) with (i := i1)
  as (r2 & g & i2 & Hg).
{ simpl. nia. }
destruct (place_pits_terminates (grid_size s) w g k Hgs1 Hfair
            (Z.to_nat (num_pits s)) [] i2) as (r3 & ps & i3 & Hps).
{ simpl. rewrite Hnum. nia. }
exists ((r1 `max` r2) `max` r3)%nat, (board s w g ps), (k + 2 * i3)%nat.
intros r Hr. unfold _init_board.
replace k with (k + 2 * 0)%nat at 1 by lia.
rewrite (bind_ret _ _ _ _ _ (Hw r ltac:(lia))).
rewrite (bind_ret _ _ _ _ _ (Hg r ltac:(lia))).
by rewrite (bind_ret _ _ _ _ _ (Hps r ltac:(lia))).
Qed.
End Termination.

(** The sweeping generator draws the cells of a 3 x 3 grid row by row, over
    and over. *)
Lemma sweep_rnd_fair : fair sweep_rnd 3 0.
Proof.
intros i [a b] [Ha Hb]%grid_cells_elem. simpl in Ha, Hb.
exists (9 * i + 3 * Z.to_nat a + Z.to_nat b)%nat. split; [lia|].
unfold drawn, sweep_rnd. cbn [Nat.add].
set (j := (9 * i + 3 * Z.to_nat a + Z.to_nat b)%nat).
replace (Nat.even (2 * j)) with true
  by (symmetry; apply Nat.even_spec; by exists j).
replace (Nat.even (S (2 * j))) with false
  by (symmetry; rewrite Nat.even_succ, <-Nat.negb_even;
      apply negb_false_iff, Nat.even_spec; by exists j).
replace ((2 * j) `div` 2)%nat with j by (apply Nat.div_unique with 0%nat; lia).
replace (S (2 * j) `div` 2)%nat with j by (apply Nat.div_unique with 1%nat; lia).
f_equal.
- replace (Z.of_nat j) with ((3 * Z.of_nat i + a) * 3 + b) by lia.
  rewrite Z.div_add_l by lia. rewrite (Z.div_small b) by lia.
  replace (3 * Z.of_nat i + a + 0) with (a + Z.of_nat i * 3) by lia.
  rewrite Z.mod_add by lia. apply Z.mod_small. lia.
- replace (Z.of_nat j) with (b + (3 * Z.of_nat i + a) * 3) by lia.
  rewrite Z.mod_add by lia. apply Z.mod_small. lia.
Qed.

(** C8, as the code has it.  For a grid size of at least 3 the entities
    fit, [grid_size + 3 ≤ grid_size * grid_size], and on every fair random
    sequence [_init_board] returns a world, given enough rounds for its
    loops.  A world that is returned always has that room; a grid of size 2
    does not have it. *)
Theorem generation_terminates rnd s k :
  3 ≤ grid_size s → num_pits s = grid_size s → fair rnd (grid_size s) k →
  grid_size s + 3 ≤ grid_size s * grid_size s
  ∧ ∃ rounds s' k', ∀ r, (rounds ≤ r)%nat → _init_board rnd r s k = Ret s' k'.
Proof.
intros Hgs Hnum Hfair. split; [nia|]. by apply _init_board_terminates.
Qed.

Lemma generation_terminates_witness :
  3 ≤ grid_size (blank 3)
  ∧ num_pits (blank 3) = grid_size (blank 3)
  ∧ fair sweep_rnd (grid_size (blank 3)) 0
  ∧ grid_size (blank 3) + 3 ≤ grid_size (blank 3) * grid_size (blank 3)
  ∧ ∃ rounds s' k', ∀ r, (rounds ≤ r)%nat →
      _init_board sweep_rnd r (blank 3) 0%nat = Ret s' k'.
Proof.
assert (H1 : 3 ≤ grid_size (blank 3)) by (simpl; lia).
split; [exact H1|]. split; [reflexivity|]. split; [exact sweep_rnd_fair|].
exact (generation_terminates sweep_rnd (blank 3) 0%nat H1 eq_refl sweep_rnd_fair).
Defined.

(** The sweep places the 3 x 3 world within 7 rounds per loop. *)
Example sweep_world :
  _init_board sweep_rnd 7 (blank 3) 0%nat
  = Ret (board (blank 3) (0, 1) (0, 2) [(1, 0); (1, 1); (1, 2)]) 12%nat.
Proof. vm_compute. reflexivity. Qed.

(** On a 2 x 2 grid the constructor never returns, whatever the random
    sequence and however many rounds its loops are given. *)
Lemma constructor_spins_on_2x2 rnd rounds file k :
  WumpusWorld_init rnd rounds file 2 k = Spin.
Proof.
unfold WumpusWorld_init.
match goal with |- _init_board rnd rounds ?s0 k = Spin =>
  pose proof (_init_board_no_raise rnd rounds s0 k) as Hraise;
  pose proof (_init_board_needs_room rnd rounds s0 k) as Hroom;
  destruct (_init_board rnd rounds s0 k) as [s' k'| |]
end.
- specialize (Hroom s' k' eq_refl eq_refl). simpl in Hroom. lia.
- exfalso. apply Hraise; [simpl; lia|done].
- done.
Qed.

(** C8 as stated fails at grid size 2: the start cell, the monster, the
    gold and two pits do not fit into four cells, and no random sequence and
    no number of rounds make [WumpusWorld(grid_size=2)] return a world. *)
Lemma generation_spins_on_2x2 :
  ¬ ∃ rnd rounds file k s' k', WumpusWorld_init rnd rounds file 2 k = Ret s' k'.
Proof.
intros (rnd & rounds & file & k & s' & k' & Hret).
by rewrite constructor_spins_on_2x2 in Hret.
Qed.

(* ===================================================================== *)
(** * Further properties of the program *)
(* ===================================================================== *)

(** ** The high score file, read and written *)

Section FileRoundTrip.
Implicit Types (file : csv_file) (rows : list csv_row) (scores : gmap Z (Z * string)).

Lemma read_scores_written scores : read_scores (write_rows scores) ∅ = scores.
Proof.
apply map_eq. intros k.
rewrite read_scores_lookup by apply write_rows_ok.
rewrite record_for_write_rows, lookup_empty. by destruct (scores !! k).
Qed.

Global Instance key_le_trans : Transitive key_le.
Proof. intros a b c. unfold key_le. lia. Qed.

Global Instance key_le_total : Total key_le.
Proof. intros a b. unfold key_le. lia. Qed.

Lemma StronglySorted_le_lt (l : list Z) :
  StronglySorted Z.le l → NoDup l → StronglySorted Z.lt l.
Proof.
induction 1 as [|x l Hs IH Hall]; intros Hnd; [constructor|].
apply NoDup_cons in Hnd as [Hx Hnd]. constructor; [by apply IH|].
apply Forall_forall. intros y Hy.
pose proof (proj1 (Forall_forall _ _) Hall y Hy).
assert (x ≠ y) by (by intros ->). lia.
Qed.

Lemma write_rows_sorted scores :
  StronglySorted Z.lt (omap grid_size_field (write_rows scores)).
Proof.
apply StronglySorted_le_lt; [|apply write_rows_ok].
rewrite write_rows_keys.
pose proof (StronglySorted_merge_sort key_le (map_to_list scores)) as Hs.
induction Hs as [|e l Hs IH Hall]; csimpl; constructor; [done|].
apply Forall_fmap. by eapply Forall_impl.
Qed.

Lemma write_rows_elem scores k v d :
  CsvRow (Some k) (Some v) d ∈ write_rows scores ↔ scores !! k = Some (v, d).
Proof.
by rewrite <-record_for_elem, record_for_write_rows by apply write_rows_ok.
Qed.

Lemma read_all_fst rows scores :
  read_all rows (fst <$> scores) = fst <$> read_scores rows scores.
Proof.
revert scores. induction rows as [|r rows IH]; intros scores; simpl; [done|].
destruct (score_field r) as [sc|], (grid_size_field r) as [gs|]; try done.
by rewrite <-IH, fmap_insert.
Qed.

Lemma get_all_high_scores_lookup file k :
  file_ok file →
  get_all_high_scores file !! k = fst <$> record_for k (rows_of file).
Proof.
intros Hok. unfold get_all_high_scores. destruct file as [rows|]; simpl; [|done].
pose proof (read_all_fst rows ∅) as Hall. rewrite fmap_empty in Hall.
rewrite Hall, lookup_fmap, read_scores_lookup by done.
rewrite lookup_empty. by destruct (record_for k rows).
Qed.
End FileRoundTrip.

(** X1. What the writing loop of [save_high_score] puts into the file, its
    reading loop and that of [get_all_high_scores] read back: the same dict,
    entry for entry, whatever the order the dict was filled in. *)
Theorem written_scores_read_back (scores : gmap Z (Z * string)) :
  read_scores (write_rows scores) ∅ = scores
  ∧ get_all_high_scores (Some (write_rows scores)) = fst <$> scores.
Proof.
split; [apply read_scores_written|].
unfold get_all_high_scores.
pose proof (read_all_fst (write_rows scores) ∅) as Hall. rewrite fmap_empty in Hall.
by rewrite Hall, read_scores_written.
Qed.

(** X2. Whatever the file holds, also rows that do not parse or several rows
    for one grid size, [save_high_score] either leaves it as it is or leaves
    a file with one parseable row per grid size, in strictly increasing order
    of grid size, in which the row of [grid_size] carries the new score and
    the timestamp of the call. *)
Theorem save_high_score_normalises now file gs sc :
  save_high_score now file gs sc = file
  ∨ ∃ rows, save_high_score now file gs sc = Some rows
      ∧ rows_ok rows
      ∧ StronglySorted Z.lt (omap grid_size_field rows)
      ∧ CsvRow (Some gs) (Some sc) now ∈ rows
      ∧ load_high_score (Some rows) gs = sc.
Proof.
unfold save_high_score. case_bool_decide; [right|by left].
eexists. split; [done|]. split_and!.
- apply write_rows_ok.
- apply write_rows_sorted.
- apply write_rows_elem, lookup_insert_eq.
- by rewrite load_high_score_written, lookup_insert_eq.
Qed.

(** X3. Saving a score and then the same or a lower score for the same grid
    size is the same as saving the first alone, whatever the file holds:
    the second call writes nothing. *)
Theorem save_high_score_idempotent now1 now2 file gs sc sc' :
  sc' ≤ sc →
  save_high_score now2 (save_high_score now1 file gs sc) gs sc'
  = save_high_score now1 file gs sc.
Proof.
intros Hle.
assert (Hcases :
  (∃ scores, save_high_score now1 file gs sc = Some (write_rows (<[gs := (sc, now1)]> scores)))
  ∨ (save_high_score now1 file gs sc = file
     ∧ ∀ now, save_high_score now file gs sc' = file)).
{ unfold save_high_score. case_bool_decide as Hhigher; [left; by eexists|right].
  split; [done|]. intros now. by rewrite bool_decide_eq_false_2 by lia. }
destruct Hcases as [[scores ->]|[-> Hsame]]; [|apply Hsame].
rewrite save_high_score_unfold by apply write_rows_ok.
rewrite load_high_score_written, lookup_insert_eq. simpl.
by rewrite bool_decide_eq_false_2 by lia.
Qed.

Lemma save_high_score_idempotent_witness :
  300 ≤ 500
  ∧ save_high_score "t2" (save_high_score "t1" sample_file 6 500) 6 300
    = save_high_score "t1" sample_file 6 500.
Proof.
assert (H : 300 ≤ 500) by lia.
split; [exact H|]. exact (save_high_score_idempotent "t1" "t2" sample_file 6 500 300 H).
Defined.



(** X5. On a well-formed file the score table of the menu and the engine
    agree: [load_high_score] returns the table's entry for the grid size, or
    0 where the table has none; and a save of a strictly higher score
    changes the table at that grid size only, to the new score. *)
Theorem score_table_agrees now file gs sc :
  file_ok file →
  (∀ k, load_high_score file k = default 0 (get_all_high_scores file !! k))
  ∧ (load_high_score file gs < sc →
     get_all_high_scores (save_high_score now file gs sc)
     = <[gs := sc]> (get_all_high_scores file)).
Proof.
intros Hok. split.
- intros k. rewrite get_all_high_scores_lookup, load_high_score_file by done.
  by destruct (record_for k (rows_of file)).
- intros Hlt. rewrite save_high_score_unfold, bool_decide_eq_true_2 by done.
  unfold get_all_high_scores at 1.
  match goal with |- read_all ?rows ∅ = _ =>
    pose proof (read_all_fst rows ∅) as Hnew end.
  rewrite fmap_empty in Hnew. rewrite Hnew, read_scores_written.
  rewrite fmap_insert. simpl. f_equal.
  destruct file as [rows|]; simpl; [|by rewrite fmap_empty].
  pose proof (read_all_fst rows ∅) as Hall. rewrite fmap_empty in Hall. by rewrite Hall.
Qed.

Lemma score_table_agrees_witness :
  file_ok sample_file
  ∧ (∀ k, load_high_score sample_file k
          = default 0 (get_all_high_scores sample_file !! k))
  ∧ (load_high_score sample_file 6 < 700 →
     get_all_high_scores (save_high_score "t1" sample_file 6 700)
     = <[6 := 700]> (get_all_high_scores sample_file)).
Proof.
assert (Hok : file_ok sample_file).
{ split; [repeat constructor; simpl; eauto|].
  apply (bool_decide_unpack _). vm_compute. exact I. }
split; [exact Hok|]. exact (score_table_agrees "t1" sample_file 6 700 Hok).
Defined.

(** X6. [load_high_score] invents nothing: a result other than 0 is the
    score of a row of the file for that grid size, whatever else the file
    holds. *)
Theorem load_high_score_from_row file gs :
  load_high_score file gs ≠ 0 →
  ∃ rows r, file = Some rows ∧ r ∈ rows
    ∧ grid_size_field r = Some gs
    ∧ score_field r = Some (load_high_score file gs).
Proof.
destruct file as [rows|]; simpl; [|done]. intros Hnz.
exists rows. induction rows as [|r rows IH]; simpl in *; [done|].
destruct (grid_size_field r) as [g|] eqn:Hg; [|done].
case_bool_decide as Hk.
- destruct (score_field r) as [v|] eqn:Hv; [|done].
  exists r. subst. split; [done|]. split; [apply list_elem_of_here|done].
- destruct (IH Hnz) as (r' & _ & Hin & Hg' & Hv').
  exists r'. split; [done|]. split; [by apply list_elem_of_further|done].
Qed.

Lemma load_high_score_from_row_witness :
  load_high_score sample_file 6 ≠ 0
  ∧ ∃ rows r, sample_file = Some rows ∧ r ∈ rows
      ∧ grid_size_field r = Some 6
      ∧ score_field r = Some (load_high_score sample_file 6).
Proof.
assert (H : load_high_score sample_file 6 ≠ 0) by (vm_compute; discriminate).
split; [exact H|]. exact (load_high_score_from_row sample_file 6 H).
Defined.

(** ** What holds in every game *)

Section AddScoreFields.
Variables (now : string) (pts r c : Z) (s : WumpusWorld).

Lemma _add_score_grid_size : grid_size (_add_score now pts r c s) = grid_size s.
Proof. apply _add_score_frame. Qed.
Lemma _add_score_num_pits : num_pits (_add_score now pts r c s) = num_pits s.
Proof. apply _add_score_frame. Qed.
Lemma _add_score_game_state : game_state (_add_score now pts r c s) = game_state s.
Proof. apply _add_score_frame. Qed.
Lemma _add_score_agent_pos : agent_pos (_add_score now pts r c s) = agent_pos s.
Proof. apply _add_score_frame. Qed.
Lemma _add_score_agent_alive : agent_alive (_add_score now pts r c s) = agent_alive s.
Proof. apply _add_score_frame. Qed.
Lemma _add_score_has_gold : has_gold (_add_score now pts r c s) = has_gold s.
Proof. apply _add_score_frame. Qed.
Lemma _add_score_wumpus_alive : wumpus_alive (_add_score now pts r c s) = wumpus_alive s.
Proof. apply _add_score_frame. Qed.
Lemma _add_score_arrow_used : arrow_used (_add_score now pts r c s) = arrow_used s.
Proof. apply _add_score_frame. Qed.
Lemma _add_score_visited : visited (_add_score now pts r c s) = visited s.
Proof. apply _add_score_frame. Qed.
Lemma _add_score_scored_cells : scored_cells (_add_score now pts r c s) = scored_cells s.
Proof. apply _add_score_frame. Qed.
Lemma _add_score_arrow : arrow (_add_score now pts r c s) = arrow s.
Proof. apply _add_score_frame. Qed.
Lemma _add_score_wumpus : wumpus (_add_score now pts r c s) = wumpus s.
Proof. apply _add_score_frame. Qed.
Lemma _add_score_gold : gold (_add_score now pts r c s) = gold s.
Proof. apply _add_score_frame. Qed.
Lemma _add_score_pits : pits (_add_score now pts r c s) = pits s.
Proof. apply _add_score_frame. Qed.

Lemma _add_score_highscore_csv :
  highscore_csv (_add_score now pts r c s)
  = if bool_decide (high_score s < score s + pts)
    then save_high_score now (highscore_csv s) (grid_size s) (score s + pts)
    else highscore_csv s.
Proof. unfold _add_score. simpl. by case_bool_decide. Qed.
End AddScoreFields.

Create Rewrite HintDb wumpus.

Hint Rewrite _add_score_grid_size _add_score_num_pits _add_score_game_state
  _add_score_agent_pos _add_score_agent_alive _add_score_has_gold
  _add_score_wumpus_alive _add_score_arrow_used _add_score_visited
  _add_score_scored_cells _add_score_arrow _add_score_wumpus _add_score_gold
  _add_score_pits _add_score_score _add_score_popups _add_score_high_score
  _add_score_highscore_csv : wumpus.

(** Reading the attributes of a state built from setters and [_add_score]. *)
Ltac fields :=
  repeat first
    [ progress autorewrite with wumpus in *
    | progress cbn [grid_size num_pits high_score game_state agent_pos agent_alive
                    has_gold wumpus_alive arrow_used visited scored_cells message
                    score popups aim_dir arrow wumpus gold pits highscore_csv
                    set_game_state set_high_score set_agent_pos set_agent_alive
                    set_has_gold set_wumpus_alive set_arrow_used set_visited
                    set_scored_cells set_message set_score set_popups set_aim_dir
                    set_arrow set_highscore_csv board
                    row col dr dc frac speed done hit_wumpus new_arrow fst snd] in * ].

(** ** World generation: small grids and what is placed *)

(** X7. A world comes out of [_init_board] only for a grid size of at
    least 3, and then the monster, the gold and every pit lie in the grid,
    the agent stands alive on (0,0) with score 0, no gold, an unused arrow
    and a live monster, and the grid size, the high score and the file are
    those it was called with. *)
Theorem generated_world_shape rnd rounds s k s' k' :
  num_pits s = grid_size s →
  _init_board rnd rounds s k = Ret s' k' →
  3 ≤ grid_size s
  ∧ Forall (in_grid s') (wumpus s' :: gold s' :: pits s')
  ∧ agent_pos s' = (0, 0) ∧ agent_alive s' = true ∧ score s' = 0
  ∧ has_gold s' = false ∧ arrow_used s' = false ∧ wumpus_alive s' = true
  ∧ arrow s' = None ∧ visited s' = {[(0, 0)]} ∧ scored_cells s' = {[(0, 0)]}
  ∧ grid_size s' = grid_size s ∧ high_score s' = high_score s
  ∧ highscore_csv s' = highscore_csv s ∧ game_state s' = game_state s.
Proof.
intros Hnum Hret.
pose proof (_init_board_needs_room rnd rounds s k s' k' Hnum Hret) as Hroom.
apply _init_board_ret in Hret as (w & g & ps & -> & Hnd & Hlen & Hall).
assert (1 ≤ grid_size s) by (apply Forall_cons in Hall as [? _]; lia).
split; [nia|]. split; [|by repeat split].
eapply Forall_impl; [exact Hall|]. intros c Hc. exact Hc.
Qed.

Lemma generated_world_shape_witness :
  num_pits (blank 4) = grid_size (blank 4)
  ∧ _init_board sample_rnd 5 (blank 4) 0%nat = Ret sample_placed 12%nat
  ∧ 3 ≤ grid_size (blank 4)
  ∧ Forall (in_grid sample_placed)
      (wumpus sample_placed :: gold sample_placed :: pits sample_placed).
Proof.
assert (Hrun : _init_board sample_rnd 5 (blank 4) 0%nat = Ret sample_placed 12%nat).
{ vm_compute. reflexivity. }
split; [reflexivity|]. split; [exact Hrun|].
destruct (generated_world_shape sample_rnd 5 (blank 4) 0%nat _ 12%nat eq_refl Hrun)
  as (H3 & Hin & _).
split; [exact H3|exact Hin].
Defined.

(** X8. For a grid size of 0 or less the first [random.randint(0,
    grid_size - 1)] has an empty range: the constructor and [_init_board]
    are left by the exception at once, whatever the random sequence. *)
Theorem generation_raises_without_cells rnd rounds file gs s k :
  gs ≤ 0 → grid_size s ≤ 0 →
  WumpusWorld_init rnd (S rounds) file gs k = Raise
  ∧ _init_board rnd (S rounds) s k = Raise.
Proof.
intros Hgs Hs. unfold WumpusWorld_init, _init_board. simpl.
unfold mbind, Gen_bind, randint. by rewrite !bool_decide_eq_true_2 by (simpl; lia).
Qed.

Lemma generation_raises_without_cells_witness :
  0 ≤ 0 ∧ grid_size (blank 0) ≤ 0
  ∧ WumpusWorld_init sample_rnd 1 None 0 0%nat = Raise
  ∧ _init_board sample_rnd 1 (blank 0) 0%nat = Raise.
Proof.
assert (H0 : 0 ≤ 0) by lia.
assert (H1 : grid_size (blank 0) ≤ 0) by (simpl; lia).
split; [exact H0|]. split; [exact H1|].
exact (generation_raises_without_cells sample_rnd 0 None 0 (blank 0) 0%nat H0 H1).
Defined.

(** ** Neighbours *)

Lemma adjacent_in_grid s p c :
  in_grid s p → c ∈ adjacent s p ↔ in_grid s c ∧ orth_adjacent p c.
Proof.
destruct p as [x y], c as [a b]. unfold in_grid, orth_adjacent.
intros Hin. rewrite adjacent_elem. cbn in *. split.
- intros [[? [= -> ->]]|[[? [= -> ->]]|[[? [= -> ->]]|[? [= -> ->]]]]]; lia.
- intros [Hc Hadj].
  assert (a = x - 1 ∧ b = y ∨ a = x + 1 ∧ b = y
          ∨ a = x ∧ b = y - 1 ∨ a = x ∧ b = y + 1) as Hcases by lia.
  destruct Hcases as [[-> ->]|[[-> ->]|[[-> ->]|[-> ->]]]].
  + left. split; [lia|done].
  + right; left. split; [lia|done].
  + right; right; left. split; [lia|done].
  + right; right; right. split; [lia|done].
Qed.

(** X9. For cells of the grid, being a neighbour is symmetric; a cell is
    no neighbour of itself; [adjacent] lists no cell twice and at most four
    cells. *)
Theorem adjacent_symmetric s p q :
  in_grid s p → in_grid s q →
  (q ∈ adjacent s p ↔ p ∈ adjacent s q)
  ∧ (p ∉ adjacent s p)
  ∧ NoDup (adjacent s p)
  ∧ (length (adjacent s p) ≤ 4)%nat.
Proof.
intros Hp Hq. split_and!.
- rewrite !adjacent_in_grid by done. unfold orth_adjacent. split; intros [_ ?]; split;
    try done; lia.
- rewrite adjacent_in_grid by done. unfold orth_adjacent. intros [_ ?]. lia.
- destruct p as [x y]. unfold adjacent.
  repeat case_bool_decide; cbn; repeat (apply NoDup_cons; split);
    rewrite ?not_elem_of_cons; try apply NoDup_nil_2; repeat split;
    try apply not_elem_of_nil; intros [=]; lia.
- destruct p as [x y]. unfold adjacent. repeat case_bool_decide; cbn; lia.
Qed.

Lemma adjacent_symmetric_witness :
  in_grid sample_world (1, 0) ∧ in_grid sample_world (1, 1)
  ∧ ((1, 1) ∈ adjacent sample_world (1, 0) ↔ (1, 0) ∈ adjacent sample_world (1, 1))
  ∧ ((1, 0) ∉ adjacent sample_world (1, 0))
  ∧ NoDup (adjacent sample_world (1, 0))
  ∧ (length (adjacent sample_world (1, 0)%Z) ≤ 4)%nat.
Proof.
assert (H1 : in_grid sample_world (1, 0)) by (unfold in_grid; cbn; lia).
assert (H2 : in_grid sample_world (1, 1)) by (unfold in_grid; cbn; lia).
split; [exact H1|]. split; [exact H2|].
exact (adjacent_symmetric sample_world (1, 0) (1, 1) H1 H2).
Defined.
